(** * Classical tree counter: a shallow embedding of
      [src/counting/classical_tree_counter.py] and its properties.

    The Python module drives three libraries: NumPy (arrays), OpenCV
    ([cv2]: colour conversion, weighted sums, thresholding, morphology and
    [SimpleBlobDetector]) and rasterio ([rio.transform.rowcol] / [xy]).
    The repository's own code is embedded function by function in
    [Module TreeCounterPy]; the library calls it makes are given the meaning
    the libraries document, in [Module np], [Module cv2] and [Module rio].

    Conventions:
    - every array is a [uint8] array: a shape and a row-major buffer of [Z];
    - Python floats are idealised as exact rationals ([Q]); the places where
      the libraries round are written out ([cvRound], [floor]);
    - a Python call either returns, raises, or does not terminate
      ([Py.result]); methods of [TreeCounter] thread the object [self]. *)

From Stdlib Require Import String ZArith QArith Qabs Qround Qfield Bool Lia Lqa List.
Import ListNotations.

Local Open Scope Z_scope.

(* ------------------------------------------------------------------ *)
(** ** Python outcomes *)

Module Py.

(** An exception is identified by the name of its class and its message. *)
Record exception : Type := mkExc { exc_class : string; exc_msg : string }.

Definition AssertionError (msg : string) : exception := mkExc "AssertionError" msg.
Definition ZeroDivisionError : exception := mkExc "ZeroDivisionError" "division by zero".
Definition TypeError (msg : string) : exception := mkExc "TypeError" msg.

Inductive result (A : Type) : Type :=
| Ok (a : A)
| Raise (e : exception)
| Diverge.
Arguments Ok {A} a.
Arguments Raise {A} e.
Arguments Diverge {A}.

Definition rbind {A B : Type} (r : result A) (k : A -> result B) : result B :=
  match r with
  | Ok a => k a
  | Raise e => Raise e
  | Diverge => Diverge
  end.

(** [assert cond, msg] *)
Definition py_assert (cond : bool) (msg : string) : result unit :=
  if cond then Ok tt else Raise (AssertionError msg).

Definition raises {A : Type} (r : result A) (cls : string) : Prop :=
  exists msg, r = Raise (mkExc cls msg).

End Py.
Import Py.

Declare Scope result_scope.
Delimit Scope result_scope with result.
Notation "x <- c ;; k" := (rbind c (fun x => k))
  (at level 61, c at next level, right associativity) : result_scope.
Notation "c ;;; k" := (rbind c (fun _ => k))
  (at level 61, right associativity) : result_scope.

(* ------------------------------------------------------------------ *)
(** ** NumPy arrays of dtype uint8 *)

Module np.

Record ndarray : Type := mkArr { shape : list nat; data : list Z }.

Definition size_of (shp : list nat) : nat := fold_right Nat.mul 1%nat shp.

Definition ndim (a : ndarray) : nat := length (shape a).

(** A well-formed array: the buffer has one cell per index and every
    cell is a byte. *)
Definition wf (a : ndarray) : Prop :=
  length (data a) = size_of (shape a) /\
  Forall (fun v => 0 <= v <= 255) (data a).

(** Tuple equality of two shapes. *)
Definition shape_eqb (s t : list nat) : bool :=
  if list_eq_dec Nat.eq_dec s t then true else false.

(** [np.ones(shape, np.uint8)] *)
Definition ones (shp : list nat) : ndarray := mkArr shp (repeat 1 (size_of shp)).

(** [np.uint8(a)] on an array: element-wise cast, wrapping modulo 256. *)
Definition uint8 (a : ndarray) : ndarray :=
  mkArr (shape a) (map (fun v => v mod 256) (data a)).

(** [a.copy()] *)
Definition copy (a : ndarray) : ndarray := mkArr (shape a) (data a).

(** Element [(r, c)] of a 2-dimensional array; [None] outside it. *)
Definition at2 (a : ndarray) (r c : Z) : option Z :=
  match shape a with
  | [h; w] =>
      if (0 <=? r) && (r <? Z.of_nat h) && (0 <=? c) && (c <? Z.of_nat w)
      then nth_error (data a) (Z.to_nat (r * Z.of_nat w + c))
      else None
  | _ => None
  end.

End np.
Import np.

(* ------------------------------------------------------------------ *)
(** ** OpenCV: the image operations the module calls

    Each definition follows the documented behaviour of the [cv2] function
    of the same name, restricted to [uint8] inputs. *)

Module cv2.

Definition error (msg : string) : exception := mkExc "cv2.error" msg.

(** The binding hands an OpenCV matrix without data back as [None]. *)
Definition pyopencv_from (m : ndarray) : option ndarray :=
  if Nat.eqb (size_of (shape m)) 0 then None else Some m.

(** [cvRound]: round to the nearest integer, ties to the even one. *)
Definition cvRound (q : Q) : Z :=
  let f := Qfloor q in
  match Qcompare (q - inject_Z f) (1 # 2) with
  | Lt => f
  | Gt => f + 1
  | Eq => if Z.even f then f else f + 1
  end.

(** [saturate_cast<uchar>] of a real value: round, then clamp to a byte. *)
Definition saturate_cast_uchar (q : Q) : Z := Z.max 0 (Z.min 255 (cvRound q)).

(** [cv2.bitwise_and(src1, src2, mask=mask)] on three-dimensional inputs:
    where the mask is non-zero the bytes are and-ed, elsewhere the freshly
    allocated destination keeps its zeros. *)
Definition bitwise_and (src1 src2 mask : ndarray) : result (option ndarray) :=
  match shape src1 with
  | [h; w; c] =>
      if shape_eqb (shape src2) (shape src1) && shape_eqb (shape mask) [h; w]
      then Ok (pyopencv_from
                 (mkArr (shape src1)
                    (map (fun i => if nth (i / c)%nat (data mask) 0 =? 0 then 0
                                   else Z.land (nth i (data src1) 0) (nth i (data src2) 0))
                         (seq 0 (h * w * c)))))
      else Raise (error "bitwise_and: sizes of the inputs and of the mask differ")
  | _ => Raise (error "bitwise_and: unsupported input")
  end.

(** [cv2.bitwise_not(src)]: the complement of every byte.  The binding
    reads [None] as a matrix without data, and hands the result, again
    without data, back as [None]. *)
Definition bitwise_not (src : option ndarray) : result (option ndarray) :=
  match src with
  | None => Ok None
  | Some a =>
      Ok (pyopencv_from (mkArr (shape a) (map (fun v => Z.land (Z.lnot v) 255) (data a))))
  end.

Inductive ColorConversionCodes : Type := COLOR_BGR2GRAY.

(** Fixed-point luma weights of [COLOR_BGR2GRAY],
    Y = 0.114 B + 0.587 G + 0.299 R scaled by [2^14]. *)
Definition B2Y : Z := 1868.
Definition G2Y : Z := 9617.
Definition R2Y : Z := 4899.
Definition yuv_shift : Z := 14.

Definition bgr2gray (b g r : Z) : Z :=
  Z.shiftr (b * B2Y + g * G2Y + r * R2Y + Z.shiftl 1 (yuv_shift - 1)) yuv_shift.

(** [cv2.cvtColor(src, COLOR_BGR2GRAY)]: a non-empty 3- or 4-channel image
    becomes a single-channel image of the same height and width. *)
Definition cvtColor (src : ndarray) (code : ColorConversionCodes) : result ndarray :=
  match code, shape src with
  | COLOR_BGR2GRAY, [h; w; c] =>
      if Nat.eqb (h * w) 0 then Raise (error "cvtColor: !_src.empty()")
      else if Nat.eqb c 3 || Nat.eqb c 4
      then Ok (mkArr [h; w]
                 (map (fun i => bgr2gray (nth (c * i) (data src) 0)
                                         (nth (c * i + 1) (data src) 0)
                                         (nth (c * i + 2) (data src) 0))
                      (seq 0 (h * w))))
      else Raise (error "cvtColor: invalid number of channels in input image")
  | COLOR_BGR2GRAY, _ =>
      Raise (error "cvtColor: invalid number of channels in input image")
  end.

(** [cv2.addWeighted(src1, alpha, src2, beta, gamma)]:
    [dst = saturate(src1*alpha + src2*beta + gamma)], element by element. *)
Definition addWeighted (src1 : ndarray) (alpha : Q) (src2 : ndarray) (beta gamma : Q)
  : result ndarray :=
  if shape_eqb (shape src1) (shape src2)
  then Ok (mkArr (shape src1)
             (map (fun p => saturate_cast_uchar
                              (inject_Z (fst p) * alpha + inject_Z (snd p) * beta + gamma)%Q)
                  (combine (data src1) (data src2))))
  else Raise (error "addWeighted: the input arrays differ in size").

Inductive ThresholdTypes : Type := THRESH_BINARY | THRESH_BINARY_INV.

(** One pixel of [cv2.threshold]:
    [THRESH_BINARY] gives [maxval] if [src > thresh] and 0 otherwise. *)
Definition threshold_px (thresh maxval : Z) (type : ThresholdTypes) (v : Z) : Z :=
  match type with
  | THRESH_BINARY => if v >? thresh then maxval else 0
  | THRESH_BINARY_INV => if v >? thresh then 0 else maxval
  end.

(** [cv2.threshold(src, thresh, maxval, type)] returns the threshold used
    and the thresholded image. *)
Definition threshold (src : ndarray) (thresh maxval : Z) (type : ThresholdTypes)
  : result (Z * ndarray) :=
  if Nat.eqb (size_of (shape src)) 0 then Raise (error "threshold: empty input")
  else Ok (thresh, mkArr (shape src) (map (threshold_px thresh maxval type) (data src))).

(** Offsets, relative to the anchor at the centre, of the non-zero cells of
    a structuring element. *)
Definition kernel_offsets (kernel : ndarray) : list (Z * Z) :=
  match shape kernel with
  | [kh; kw] =>
      flat_map (fun i =>
        flat_map (fun j =>
          if nth (i * kw + j) (data kernel) 0 =? 0 then []
          else [(Z.of_nat i - Z.of_nat (kh / 2), Z.of_nat j - Z.of_nat (kw / 2))])
        (seq 0 kw))
      (seq 0 kh)
  | _ => []
  end.

(** The pixels of [src] under the structuring element placed at [(r, c)];
    cells that fall outside the image are left out, which is what the
    default border of the morphological operations amounts to. *)
Definition window (src : ndarray) (offs : list (Z * Z)) (r c : Z) : list Z :=
  flat_map (fun d => match at2 src (r + fst d) (c + snd d) with
                     | Some v => [v]
                     | None => []
                     end) offs.

Definition morph_map (pick : list Z -> Z) (src kernel : ndarray) : ndarray :=
  match shape src with
  | [h; w] =>
      mkArr (shape src)
        (map (fun i => pick (window src (kernel_offsets kernel)
                               (Z.of_nat (i / w)) (Z.of_nat (i mod w))))
             (seq 0 (h * w)))
  | _ => src
  end.

(** Erosion takes the minimum under the element, dilation the maximum. *)
Definition erode : ndarray -> ndarray -> ndarray := morph_map (fold_right Z.min 255).
Definition dilate : ndarray -> ndarray -> ndarray := morph_map (fold_right Z.max 0).

Inductive MorphTypes : Type := MORPH_ERODE | MORPH_DILATE | MORPH_OPEN | MORPH_CLOSE.

(** [cv2.morphologyEx(src, op, kernel)] on a single-channel image. *)
Definition morphologyEx (src : ndarray) (op : MorphTypes) (kernel : ndarray)
  : result ndarray :=
  match shape src with
  | [h; w] =>
      if Nat.eqb (h * w) 0 then Raise (error "morphologyEx: empty input")
      else Ok (match op with
               | MORPH_ERODE => erode src kernel
               | MORPH_DILATE => dilate src kernel
               | MORPH_OPEN => dilate (erode src kernel) kernel
               | MORPH_CLOSE => erode (dilate src kernel) kernel
               end)
  | _ => Raise (error "morphologyEx: unsupported input")
  end.

(* ---------------------------------------------------------------- *)
(** *** [SimpleBlobDetector] *)

Definition FLT_MAX : Q := inject_Z 340282346638528859811704183484516925440.

Record Params : Type := mkParams {
  thresholdStep : Q;
  minThreshold : Q;
  maxThreshold : Q;
  minRepeatability : nat;
  minDistBetweenBlobs : Q;
  filterByColor : bool;
  blobColor : Z;
  filterByArea : bool;
  minArea : Q;
  maxArea : Q;
  filterByCircularity : bool;
  minCircularity : Q;
  maxCircularity : Q;
  filterByInertia : bool;
  minInertiaRatio : Q;
  maxInertiaRatio : Q;
  filterByConvexity : bool;
  minConvexity : Q;
  maxConvexity : Q
}.

(** [cv2.SimpleBlobDetector_Params()]: the library's defaults. *)
Definition SimpleBlobDetector_Params : Params :=
  {| thresholdStep := 10;
     minThreshold := 50;
     maxThreshold := 220;
     minRepeatability := 2;
     minDistBetweenBlobs := 10;
     filterByColor := true;
     blobColor := 0;
     filterByArea := true;
     minArea := 25;
     maxArea := 5000;
     filterByCircularity := false;
     minCircularity := 8 # 10;
     maxCircularity := FLT_MAX;
     filterByInertia := true;
     minInertiaRatio := 1 # 10;
     maxInertiaRatio := FLT_MAX;
     filterByConvexity := true;
     minConvexity := 95 # 100;
     maxConvexity := FLT_MAX |}.

Record Moments : Type := mkMoments { m00 : Q; m10 : Q; m01 : Q }.

(** The geometry the detector obtains from OpenCV's contour routines
    ([findContours] with [RETR_LIST] and [CHAIN_APPROX_NONE], [moments],
    [arcLength], [convexHull], [contourArea]); it is kept abstract.
    - [circularity] is [4 pi area / perimeter^2];
    - [inertia_ratio] is the ratio of the minor to the major axis;
    - [convexity] is [area / hull area];
    - [blob_radius] is the median distance from the contour to its centre. *)
Class ContourAnalysis : Type := {
  contour : Type;
  findContours : ndarray -> list contour;
  moments : contour -> Moments;
  circularity : contour -> Q;
  inertia_ratio : contour -> Q;
  convexity : contour -> Q;
  blob_radius : contour -> Q
}.

(** The centre of mass of a contour of non-zero area, rounded to a pixel. *)
Definition centre_pixel (m : Moments) : Z * Z :=
  (cvRound (m01 m / m00 m), cvRound (m10 m / m00 m)).

(** What the detector relies on when it reads the pixel under a centre:
    a contour found in an image has its centre on a pixel of that image. *)
Class ContourContract (CA : ContourAnalysis) : Prop :=
  centre_inside :
    forall (img : ndarray) (c : contour),
      In c (findContours img) ->
      ~ (m00 (moments c) == 0)%Q ->
      at2 img (fst (centre_pixel (moments c))) (snd (centre_pixel (moments c))) <> None.

Record Center : Type := mkCenter { location : Q * Q; radius : Q; confidence : Q }.

(** [cv2.KeyPoint]: the fields the module reads. *)
Record KeyPoint : Type := mkKeyPoint { pt : Q * Q; size : Q }.

Definition Qlt_bool (a b : Q) : bool := negb (Qle_bool b a).

(** The detector's range test, [v < lo || v >= hi], which rejects. *)
Definition rejects (v lo hi : Q) : bool := Qlt_bool v lo || Qle_bool hi v.

(** The area filter of [findBlobs]:
    [if (area < params.minArea || area >= params.maxArea) continue;] *)
Definition area_passes (p : Params) (area : Q) : bool :=
  negb (filterByArea p && rejects area (minArea p) (maxArea p)).

Section Detector.
Context {CA : ContourAnalysis}.

(** One iteration of the loop of [findBlobs]: [Ok None] is [continue].
    A read outside [binaryImage] has no defined behaviour in the library;
    it is reported as an error here. *)
Definition examine (p : Params) (binaryImage : ndarray) (c : contour)
  : result (option Center) :=
  let moms := moments c in
  if negb (area_passes p (m00 moms)) then Ok None
  else if filterByCircularity p
          && rejects (circularity c) (minCircularity p) (maxCircularity p)
  then Ok None
  else if filterByInertia p
          && rejects (inertia_ratio c) (minInertiaRatio p) (maxInertiaRatio p)
  then Ok None
  else if filterByConvexity p
          && rejects (convexity c) (minConvexity p) (maxConvexity p)
  then Ok None
  else if Qeq_bool (m00 moms) 0 then Ok None
  else
    let center :=
      {| location := (m10 moms / m00 moms, m01 moms / m00 moms)%Q;
         radius := blob_radius c;
         confidence := if filterByInertia p
                       then (inertia_ratio c * inertia_ratio c)%Q else 1%Q |} in
    if filterByColor p then
      match at2 binaryImage (fst (centre_pixel moms)) (snd (centre_pixel moms)) with
      | None => Raise (error "findBlobs: centre outside the image")
      | Some v => if v =? blobColor p then Ok (Some center) else Ok None
      end
    else Ok (Some center).

Fixpoint findBlobs_loop (p : Params) (binaryImage : ndarray) (cs : list contour)
  : result (list Center) :=
  match cs with
  | [] => Ok []
  | c :: cs' =>
      (o <- examine p binaryImage c ;;
       rest <- findBlobs_loop p binaryImage cs' ;;
       Ok (match o with Some ctr => ctr :: rest | None => rest end))%result
  end.

Definition findBlobs (p : Params) (binaryImage : ndarray) : result (list Center) :=
  findBlobs_loop p binaryImage (findContours binaryImage).

(** [dist >= t] for the Euclidean length of [(dx, dy)], on squares. *)
Definition dist_ge (dx dy t : Q) : bool :=
  Qle_bool t 0 || Qle_bool (t * t) (dx * dx + dy * dy).

Definition isNew (p : Params) (mid cur : Center) : bool :=
  let dx := (fst (location mid) - fst (location cur))%Q in
  let dy := (snd (location mid) - snd (location cur))%Q in
  dist_ge dx dy (minDistBetweenBlobs p)
  && dist_ge dx dy (radius mid) && dist_ge dx dy (radius cur).

(** Insertion from the back, keeping a group ordered by radius. *)
Fixpoint insert_back (cur : Center) (rev_group : list Center) : list Center :=
  match rev_group with
  | [] => [cur]
  | x :: xs => if Qlt_bool (radius cur) (radius x)
               then x :: insert_back cur xs else cur :: x :: xs
  end.

Definition push_sorted (cur : Center) (group : list Center) : list Center :=
  rev (insert_back cur (rev group)).

(** The inner loop over the groups found so far: the first group whose
    middle centre is close to [cur] takes it. *)
Fixpoint place (p : Params) (cur : Center) (centers : list (list Center))
  : option (list (list Center)) :=
  match centers with
  | [] => None
  | g :: gs =>
      if isNew p (nth (length g / 2) g cur) cur
      then option_map (cons g) (place p cur gs)
      else Some (push_sorted cur g :: gs)
  end.

Fixpoint merge_level (p : Params) (curCenters : list Center)
         (centers newCenters : list (list Center)) : list (list Center) :=
  match curCenters with
  | [] => centers ++ newCenters
  | cur :: rest =>
      match place p cur centers with
      | Some centers' => merge_level p rest centers' newCenters
      | None => merge_level p rest centers (newCenters ++ [[cur]])
      end
  end.

(** The threshold levels [minThreshold, minThreshold + step, ...] below
    [maxThreshold]; [None] when the loop would never end. *)
Definition threshold_levels (p : Params) : option (list Q) :=
  if Qlt_bool (minThreshold p) (maxThreshold p) then
    if Qlt_bool 0 (thresholdStep p) then
      Some (map (fun k => (minThreshold p + inject_Z (Z.of_nat k) * thresholdStep p)%Q)
              (seq 0 (Z.to_nat (Qceiling ((maxThreshold p - minThreshold p)
                                          / thresholdStep p)))))
    else None
  else Some [].

Fixpoint sweep (p : Params) (grayscaleImage : ndarray) (levels : list Q)
         (centers : list (list Center)) : result (list (list Center)) :=
  match levels with
  | [] => Ok centers
  | thresh :: levels' =>
      (tb <- threshold grayscaleImage (Qfloor thresh) 255 THRESH_BINARY ;;
       curCenters <- findBlobs p (snd tb) ;;
       sweep p grayscaleImage levels' (merge_level p curCenters centers []))%result
  end.

Definition keypoint_of (group : list Center) : KeyPoint :=
  let sx := fold_right (fun c acc => (confidence c * fst (location c) + acc)%Q) 0%Q group in
  let sy := fold_right (fun c acc => (confidence c * snd (location c) + acc)%Q) 0%Q group in
  let normalizer := fold_right (fun c acc => (confidence c + acc)%Q) 0%Q group in
  {| pt := (sx * (1 / normalizer), sy * (1 / normalizer))%Q;
     size := (match nth_error group (length group / 2) with
              | Some c => radius c
              | None => 0
              end * 2)%Q |}.

Definition keypoints_of (p : Params) (centers : list (list Center)) : list KeyPoint :=
  map keypoint_of
    (filter (fun g => negb (Nat.ltb (length g) (minRepeatability p))) centers).

(** [detector.detect(image)] for a detector created with [p]. *)
Definition detect (p : Params) (image : ndarray) : result (list KeyPoint) :=
  if Nat.eqb (minRepeatability p) 0
  then Raise (error "detect: params.minRepeatability != 0")
  else
    (grayscaleImage <- match shape image with
                       | [_; _; _] => cvtColor image COLOR_BGR2GRAY
                       | _ => Ok image
                       end ;;
     match threshold_levels p with
     | None => Diverge
     | Some levels =>
         centers <- sweep p grayscaleImage levels [] ;;
         Ok (keypoints_of p centers)
     end)%result.

End Detector.

End cv2.
Import cv2.

(* ------------------------------------------------------------------ *)
(** ** rasterio: affine transforms between pixels and coordinates *)

Module rio.

(** [affine.Affine(a, b, c, d, e, f)]:
    [x' = a*x + b*y + c], [y' = d*x + e*y + f]. *)
Record Affine : Type := mkAffine { a : Q; b : Q; c : Q; d : Q; e : Q; f : Q }.

Definition determinant (t : Affine) : Q := (a t * e t - b t * d t)%Q.

(** [t * (x, y)] *)
Definition apply (t : Affine) (x y : Q) : Q * Q :=
  ((a t * x + b t * y + c t)%Q, (d t * x + e t * y + f t)%Q).

Definition TransformNotInvertibleError : exception :=
  mkExc "TransformNotInvertibleError" "Cannot invert degenerate transform".

(** [~t] *)
Definition invert (t : Affine) : result Affine :=
  if Qeq_bool (determinant t) 0 then Raise TransformNotInvertibleError
  else
    let idet := (1 / determinant t)%Q in
    let ra := (e t * idet)%Q in
    let rb := (- b t * idet)%Q in
    let rd := (- d t * idet)%Q in
    let re := (a t * idet)%Q in
    Ok {| a := ra; b := rb; c := (- c t * ra - f t * rb)%Q;
          d := rd; e := re; f := (- c t * rd - f t * re)%Q |}.

(** [rio.transform.rowcol(transform, x, y)] with the default [op=math.floor].
    [eps] is the small shift the library derives from its [precision]
    argument; its default value differs between releases. *)
Definition rowcol (eps : Q) (transform : Affine) (x y : Q) : result (Z * Z) :=
  (invtransform <- invert transform ;;
   let fcr := apply invtransform (x + eps)%Q (y - eps)%Q in
   Ok (Qfloor (snd fcr), Qfloor (fst fcr)))%result.

(** [rio.transform.xy(transform, row, col)] with the default
    [offset='center']: the coordinates of the centre of the pixel. *)
Definition xy (transform : Affine) (row col : Q) : Q * Q :=
  apply transform (col + (1 # 2))%Q (row + (1 # 2))%Q.

End rio.

(* ------------------------------------------------------------------ *)
(** ** The module [classical_tree_counter] *)

Module TreeCounterPy.

(** The attributes of a [TreeCounter] object. *)
Record TreeCounter : Type := mkTreeCounter {
  params : Params;
  return_locations : bool
}.

(** The dictionary returned by [count]. *)
Module Result.
Record t : Type := mk {
  trees : option (list (Q * Q));
  count : Z;
  keypoints : option (list KeyPoint)
}.
End Result.

(** A method runs on [self]: it gives an outcome and leaves the object in
    some state. *)
Definition M (A : Type) : Type := TreeCounter -> result A * TreeCounter.

Definition mret {A : Type} (x : A) : M A := fun self => (Ok x, self).

Definition mbind {A B : Type} (m : M A) (k : A -> M B) : M B :=
  fun self =>
    match m self with
    | (Ok x, self') => k x self'
    | (Raise e, self') => (Raise e, self')
    | (Diverge, self') => (Diverge, self')
    end.

(** A call that does not involve [self]. *)
Definition lift {A : Type} (r : result A) : M A := fun self => (r, self).

(** Reading an attribute of [self]. *)
Definition get_attr {A : Type} (attr : TreeCounter -> A) : M A :=
  fun self => (Ok (attr self), self).

Declare Scope method_scope.
Delimit Scope method_scope with method.
Notation "x <- c ;; k" := (mbind c (fun x => k))
  (at level 61, c at next level, right associativity) : method_scope.
Notation "c ;;; k" := (mbind c (fun _ => k))
  (at level 61, right associativity) : method_scope.

(** [_get_blob_params]: the library defaults with the module's settings.
    The method does not touch [self]. *)
Definition _get_blob_params : Params :=
  let params := SimpleBlobDetector_Params in
  {| thresholdStep := thresholdStep params;
     (* Change thresholds *)
     minThreshold := 0;
     maxThreshold := 100;
     minRepeatability := minRepeatability params;
     minDistBetweenBlobs := minDistBetweenBlobs params;
     filterByColor := filterByColor params;
     blobColor := blobColor params;
     (* Filter by Area. *)
     filterByArea := true;
     minArea := 1;
     maxArea := 10;
     (* Filter by Circularity *)
     filterByCircularity := true;
     minCircularity := 0;
     maxCircularity := maxCircularity params;
     (* Filter by Inertia *)
     filterByInertia := true;
     minInertiaRatio := 1 # 100;
     maxInertiaRatio := maxInertiaRatio params;
     (* Filter by Convexity *)
     filterByConvexity := true;
     minConvexity := 0;
     maxConvexity := maxConvexity params |}.

(** [__init__(self, *args, return_locations=False, **kwargs)] *)
Definition __init__ (return_locations : bool) : TreeCounter :=
  {| params := _get_blob_params; return_locations := return_locations |}.

Section Methods.
Context {CA : ContourAnalysis}.

(** The value of [cv2.__version__]. *)
Variable cv2_version : string.

(** [_detect_blobs(self, img, params=None)]: both branches build the same
    detector; only the name of the factory differs between versions. *)
Definition _detect_blobs (img : ndarray) (params : option Params) : M (list KeyPoint) :=
  let detector :=
    if String.prefix "2." cv2_version
    then match params with Some p => p | None => SimpleBlobDetector_Params end
    else match params with Some p => p | None => SimpleBlobDetector_Params end in
  (keypoints <- lift (detect detector img) ;;
   mret keypoints)%method.

(** [_apply_brightness_contrast(self, input_img, brightness=0, contrast=0)] *)
Definition _apply_brightness_contrast (input_img : ndarray) (brightness contrast : Z)
  : M ndarray :=
  (buf <- (if negb (brightness =? 0) then
             let shadow := if brightness >? 0 then brightness else 0 in
             let highlight := if brightness >? 0 then 255 else 255 + brightness in
             let alpha_b := (inject_Z (highlight - shadow) / 255)%Q in
             let gamma_b := inject_Z shadow in
             lift (addWeighted input_img alpha_b input_img 0 gamma_b)
           else mret (np.copy input_img)) ;;
   if negb (contrast =? 0) then
     if 127 * (131 - contrast) =? 0 then lift (Raise ZeroDivisionError)
     else
       let f := (inject_Z (131 * (contrast + 127)) / inject_Z (127 * (131 - contrast)))%Q in
       let alpha_c := f in
       let gamma_c := (127 * (1 - f))%Q in
       lift (addWeighted buf alpha_c buf 0 gamma_c)
   else mret buf)%method.

(** [_preprocess_forest_img(self, img)] *)
Definition _preprocess_forest_img (img : ndarray) : M ndarray :=
  (gray <- lift (cvtColor img COLOR_BGR2GRAY) ;;
   l_channel <- _apply_brightness_contrast gray 64 90 ;;
   let kernel := np.ones [3; 3]%nat in
   ret_mask <- lift (threshold l_channel 170 255 THRESH_BINARY) ;;
   mask_r <- lift (morphologyEx (snd ret_mask) MORPH_OPEN kernel) ;;
   let mask_r := np.uint8 mask_r in
   mret mask_r)%method.

(** The three assertions that open [count]. *)
Definition count_asserts (rgb_image forest_mask : ndarray) : M unit :=
  (lift (py_assert (Nat.eqb 3 (length (shape rgb_image)))
           "RGB image array should be 3-dimensional") ;;;
   lift (py_assert (Nat.eqb 2 (length (shape forest_mask)))
           "Forest mask array should be 2-dimensional") ;;;
   lift (py_assert (shape_eqb (firstn 2 (shape rgb_image)) (shape forest_mask))
           "Forest mask should have the same height and width as RGB"))%method.

(** [count(self, rgb_image, forest_mask)] *)
Definition count (rgb_image forest_mask : ndarray) : M Result.t :=
  (count_asserts rgb_image forest_mask ;;;
   let count := 0 in
   let trees_points := @nil (Q * Q) in
   let all_key_points := @nil KeyPoint in
   masked_rgb <- lift (bitwise_and rgb_image rgb_image forest_mask) ;;
   masked_rgb <- lift (bitwise_not masked_rgb) ;;
   match masked_rgb with
   | None => mret (Result.mk None 0 None)
   | Some masked_rgb =>
       masked_rgb <- _preprocess_forest_img masked_rgb ;;
       self_params <- get_attr params ;;
       keypoints <- _detect_blobs masked_rgb (Some self_params) ;;
       let all_key_points := all_key_points ++ keypoints in
       let trees_points := trees_points ++ map pt keypoints in
       let count := count + Z.of_nat (length trees_points) in
       mret (Result.mk (Some trees_points) count (Some all_key_points))
   end)%method.

(** The body of the key-point loop of the script: the tile corner
    [(x_min, y_min)] goes to a row and a column, the key point is added,
    and the sum goes back to coordinates. *)
Definition keypoint_to_point (eps : Q) (transform : rio.Affine) (x_min y_min : Q)
           (keypoint : KeyPoint) : result (Q * Q) :=
  let x := fst (pt keypoint) in
  let y := snd (pt keypoint) in
  (rc <- rio.rowcol eps transform x_min y_min ;;
   let y_min_pixels := fst rc in
   let x_min_pixels := snd rc in
   Ok (rio.xy transform (inject_Z y_min_pixels + y)%Q (inject_Z x_min_pixels + x)%Q))%result.

End Methods.

End TreeCounterPy.
Import TreeCounterPy.

(* ------------------------------------------------------------------ *)
(** ** A small contour analysis, to run the detector on concrete images

    Every pixel is a contour of its own (the border of a region if it is
    non-zero, of a hole if it is zero), of unit area, centred on the pixel. *)

Module PixelContours.

Definition find (img : ndarray) : list (Z * Z) :=
  match shape img with
  | [h; w] =>
      flat_map (fun i => match nth_error (data img) i with
                         | Some _ => [(Z.of_nat (i / w), Z.of_nat (i mod w))]
                         | None => []
                         end)
               (seq 0 (h * w))
  | _ => []
  end.

Definition analysis : ContourAnalysis :=
  {| contour := Z * Z;
     findContours := find;
     moments := fun rc => {| m00 := 1; m10 := inject_Z (snd rc); m01 := inject_Z (fst rc) |};
     circularity := fun _ => 1%Q;
     inertia_ratio := fun _ => 1%Q;
     convexity := fun _ => 1%Q;
     blob_radius := fun _ => (1 # 2)%Q |}.

End PixelContours.

(** The constant single-channel image. *)
Definition const_img (h w : nat) (v : Z) : ndarray := mkArr [h; w] (repeat v (h * w)).

(** [binary l]: every value of [l] is one of the two levels 0 and 255. *)
Definition binary (l : list Z) : Prop := Forall (fun v => v = 0 \/ v = 255) l.

(** A method that neither reads nor writes [self]. *)
Definition independent_of_self {A : Type} (m : M A) : Prop :=
  exists r, forall self, m self = (r, self).

(** *** The two stages as the specification words them

    The contrast stage has gain [f = 131*(c+127) / (127*(131-c))] and sends
    an intensity [v] to [f*v + 127*(1-f)], clipped to a byte; the brightness
    stage, for [b > 0], is the linear map that carries [[0,255]] onto
    [[b,255]]. *)
Definition spec_gain (c : Z) : Q :=
  (131 * (inject_Z c + 127) / (127 * (131 - inject_Z c)))%Q.

Definition spec_contrast (c : Z) (v : Z) : Z :=
  saturate_cast_uchar (spec_gain c * inject_Z v + 127 * (1 - spec_gain c))%Q.

Definition spec_brightness (b : Z) (v : Z) : Z :=
  saturate_cast_uchar (inject_Z b + inject_Z v * (255 - inject_Z b) / 255)%Q.


(** The binarization as the specification words it: 170 and above is
    foreground. *)
Definition spec_binarize (v : Z) : Z := if 170 <=? v then 255 else 0.

(** What [_preprocess_forest_img] does after the brightness and contrast
    stages, on the image [l_channel]. *)
Definition binarize_and_open (l_channel : ndarray) : result ndarray :=
  (ret_mask <- threshold l_channel 170 255 THRESH_BINARY ;;
   mask_r <- morphologyEx (snd ret_mask) MORPH_OPEN (np.ones [3; 3]%nat) ;;
   Ok (np.uint8 mask_r))%result.

(** The round trip as the specification words it: the key point [(0, 0)]
    of a tile whose corner is [P] comes back as [P], up to [tol] in each
    coordinate. *)
Definition roundtrip_within (tol eps : Q) (transform : rio.Affine) (P : Q * Q) : Prop :=
  exists g : Q * Q,
    keypoint_to_point eps transform (fst P) (snd P) (mkKeyPoint (0, 0)%Q 1%Q) = Ok g
    /\ (Qabs (fst g - fst P) <= tol)%Q /\ (Qabs (snd g - snd P) <= tol)%Q.

(** A north-up raster with pixels of half a unit, whose corner is at
    [(100, 200)]. *)
Definition north_up : rio.Affine :=
  {| rio.a := 1 # 2; rio.b := 0; rio.c := 100;
     rio.d := 0; rio.e := - (1 # 2); rio.f := 200 |}.

(** A method whose outcome depends on [self] through [self.params] only,
    and which leaves [self] as it found it. *)
Definition reads_params_only {A : Type} (m : M A) : Prop :=
  forall s1 s2 : TreeCounter,
    params s1 = params s2 -> fst (m s1) = fst (m s2) /\ snd (m s1) = s1.

(* ------------------------------------------------------------------ *)
(** ** The script under [if __name__ == '__main__']

    The loop over the patches of the tile source, from the point where the
    two shapefiles are open.  What the script writes to them is the state;
    the images written under [outputs/keypoints_png] are left out. *)

Module Script.

Definition IndexError (msg : string) : exception := mkExc "IndexError" msg.
Definition AxisError (msg : string) : exception := mkExc "AxisError" msg.
Definition NameError (msg : string) : exception := mkExc "NameError" msg.

(** [np.moveaxis(a, 0, -1)]: the first axis becomes the last one. *)
Definition moveaxis_0_last (a : ndarray) : result ndarray :=
  match shape a with
  | [] => Raise (AxisError "source: axis 0 is out of bounds for array of dimension 0")
  | c :: rest =>
      let m := size_of rest in
      Ok (mkArr (rest ++ [c])
            (map (fun i => nth ((i mod c) * m + i / c) (data a) 0) (seq 0 (m * c))))
  end.

(** [np.ones_like(a)[:, :, 2]] *)
Definition ones_like_channel_2 (a : ndarray) : result ndarray :=
  match shape a with
  | h :: w :: c :: rest =>
      if Nat.ltb 2 c then Ok (np.ones (h :: w :: rest))
      else Raise (IndexError "index 2 is out of bounds for axis 2")
  | _ => Raise (IndexError "too many indices for array")
  end.

(** A patch, as the tile source yields it: the pixels, channels first, and
    the coordinates of two corners. *)
Record Patch : Type := mkPatch {
  rgb : ndarray;
  left_upper_corner_coordinates : Q * Q;
  right_lower_corner_coordinates : Q * Q
}.

(** The records written so far: points with their id, rings with theirs. *)
Record Shapefiles : Type := mkShapefiles {
  trees_shapefile : list ((Q * Q) * Z);
  rectangles_shapefile : list (list (Q * Q) * Z)
}.

Definition write_tree (rec : (Q * Q) * Z) (out : Shapefiles) : Shapefiles :=
  {| trees_shapefile := trees_shapefile out ++ [rec];
     rectangles_shapefile := rectangles_shapefile out |}.

Definition write_rectangle (rec : list (Q * Q) * Z) (out : Shapefiles) : Shapefiles :=
  {| trees_shapefile := trees_shapefile out;
     rectangles_shapefile := rectangles_shapefile out ++ [rec] |}.

(** The ring of [rectangle_poly]. *)
Definition rectangle_ring (x_min y_min x_max y_max : Q) : list (Q * Q) :=
  let coors_to_write := [(x_min, y_min); (x_max, y_min); (x_max, y_max); (x_min, y_max)] in
  coors_to_write ++ [(x_min, y_min)].

Section Loop.
Context {CA : ContourAnalysis}.
Variable cv2_version : string.
Variable eps : Q.
Variable transform : rio.Affine.

(** [for nr, keypoint in enumerate(keypoints)], from index [nr] on. *)
Fixpoint write_keypoints (i : nat) (x_min y_min : Q) (nr : nat) (keypoints : list KeyPoint)
         (out : Shapefiles) : result unit * Shapefiles :=
  match keypoints with
  | [] => (Ok tt, out)
  | keypoint :: rest =>
      match keypoint_to_point eps transform x_min y_min keypoint with
      | Ok point =>
          write_keypoints i x_min y_min (S nr) rest
            (write_tree (point, Z.of_nat i * 1000 + Z.of_nat nr) out)
      | Raise e => (Raise e, out)
      | Diverge => (Diverge, out)
      end
  end.

(** The body of [for i, patch in enumerate(it)]. *)
Definition process_patch (i : nat) (patch : Patch) (out : Shapefiles)
  : result unit * Shapefiles :=
  let x_min := fst (left_upper_corner_coordinates patch) in
  let y_min := snd (left_upper_corner_coordinates patch) in
  let x_max := fst (right_lower_corner_coordinates patch) in
  let y_max := snd (right_lower_corner_coordinates patch) in
  match moveaxis_0_last (rgb patch) with
  | Ok rgb =>
      let tree_couter := __init__ false in
      match ones_like_channel_2 rgb with
      | Ok mask =>
          match fst (count cv2_version rgb mask tree_couter) with
          | Ok counting_dict =>
              let keypoints := Result.keypoints counting_dict in
              let out := write_rectangle
                           (rectangle_ring x_min y_min x_max y_max, Z.of_nat i * 1000) out in
              match keypoints with
              | Some keypoints => write_keypoints i x_min y_min 0 keypoints out
              | None => (Ok tt, out)
              end
          | Raise e => (Raise e, out)
          | Diverge => (Diverge, out)
          end
      | Raise e => (Raise e, out)
      | Diverge => (Diverge, out)
      end
  | Raise e => (Raise e, out)
  | Diverge => (Diverge, out)
  end.

(** The number of key points [count] finds on a patch (0 where the patch
    is not processed). *)
Definition keypoints_of_patch (patch : Patch) : nat :=
  match moveaxis_0_last (rgb patch) with
  | Ok rgb =>
      match ones_like_channel_2 rgb with
      | Ok mask =>
          match fst (count cv2_version rgb mask (__init__ false)) with
          | Ok counting_dict =>
              match Result.keypoints counting_dict with
              | Some keypoints => length keypoints
              | None => 0%nat
              end
          | _ => 0%nat
          end
      | _ => 0%nat
      end
  | _ => 0%nat
  end.

Fixpoint patches_loop (i : nat) (patches : list Patch) (out : Shapefiles)
  : result unit * Shapefiles :=
  match patches with
  | [] => (Ok tt, out)
  | patch :: rest =>
      match process_patch i patch out with
      | (Ok _, out') => patches_loop (S i) rest out'
      | stopped => stopped
      end
  end.

(** The loop, then [c.close()], where no [c] was ever bound. *)
Definition main (patches : list Patch) : result unit * Shapefiles :=
  match patches_loop 0 patches (mkShapefiles [] []) with
  | (Ok _, out) => (Raise (NameError "name 'c' is not defined"), out)
  | stopped => stopped
  end.

End Loop.

End Script.

(** The ids the script gives to [n] key points of tile [i], and to the key
    points of consecutive tiles from tile [i] on. *)
Definition tile_ids (i n : nat) : list Z :=
  map (fun nr => Z.of_nat i * 1000 + Z.of_nat nr) (seq 0 n).

Fixpoint all_ids (i : nat) (counts : list nat) : list Z :=
  match counts with
  | [] => []
  | n :: rest => tile_ids i n ++ all_ids (S i) rest
  end.

(** The brightness stage for [b < 0]: the linear map that carries
    [[0,255]] onto [[0,255+b]]. *)
Definition darken (b : Z) (v : Z) : Z :=
  saturate_cast_uchar (inject_Z v * (255 + inject_Z b) / 255)%Q.

(** The stage of [_preprocess_forest_img] up to the binarization, as one
    threshold on the grey level. *)
Definition grey_cut (g : Z) : Z := if 95 <=? g then 255 else 0.

(** A structuring element that contains, with every offset, its opposite. *)
Definition symmetric_offsets (offs : list (Z * Z)) : Prop :=
  forall d, In d offs -> In (- fst d, - snd d) offs.

(* ================================================================== *)
(** * Properties *)

(** ** Outcomes and methods *)

Lemma shape_eqb_eq (s t : list nat) : shape_eqb s t = true <-> s = t.
Proof.
  unfold shape_eqb. destruct (list_eq_dec Nat.eq_dec s t); split; congruence.
Qed.

Lemma shape_eqb_refl (s : list nat) : shape_eqb s s = true.
Proof. now apply shape_eqb_eq. Qed.

Lemma shape_eqb_neq (s t : list nat) : s <> t -> shape_eqb s t = false.
Proof.
  intros H. destruct (shape_eqb s t) eqn:E; [|reflexivity].
  apply shape_eqb_eq in E. contradiction.
Qed.

Lemma independent_lift {A : Type} (r : result A) : independent_of_self (lift r).
Proof. exists r. reflexivity. Qed.

Lemma independent_mret {A : Type} (x : A) : independent_of_self (mret x).
Proof. exists (Ok x). reflexivity. Qed.

Lemma independent_mbind {A B : Type} (m : M A) (k : A -> M B) :
  independent_of_self m ->
  (forall x, independent_of_self (k x)) ->
  independent_of_self (mbind m k).
Proof.
  intros [r Hm] Hk. destruct r as [x | e |].
  - destruct (Hk x) as [r' Hr']. exists r'. intros self.
    unfold mbind. rewrite Hm. apply Hr'.
  - exists (Raise e). intros self. unfold mbind. now rewrite Hm.
  - exists Diverge. intros self. unfold mbind. now rewrite Hm.
Qed.

Create HintDb methods.
Lemma mbind_ok {A B : Type} (m : M A) (k : A -> M B) (self self' : TreeCounter) (x : A) :
  m self = (Ok x, self') -> mbind m k self = k x self'.
Proof. intros H. unfold mbind. now rewrite H. Qed.

Lemma mbind_raise {A B : Type} (m : M A) (k : A -> M B) (self self' : TreeCounter)
      (e : exception) :
  m self = (Raise e, self') -> mbind m k self = (Raise e, self').
Proof. intros H. unfold mbind. now rewrite H. Qed.

#[local] Hint Resolve independent_lift independent_mret : methods.

Lemma brightness_contrast_independent (input_img : ndarray) (brightness contrast : Z) :
  independent_of_self (_apply_brightness_contrast input_img brightness contrast).
Proof.
  unfold _apply_brightness_contrast. apply independent_mbind.
  - destruct (negb (brightness =? 0)); auto with methods.
  - intros buf. destruct (negb (contrast =? 0)); auto with methods.
    destruct (127 * (131 - contrast) =? 0); auto with methods.
Qed.

Lemma preprocess_independent (img : ndarray) :
  independent_of_self (_preprocess_forest_img img).
Proof.
  unfold _preprocess_forest_img.
  repeat (apply independent_mbind;
          [auto using brightness_contrast_independent with methods | intros ?]).
  auto with methods.
Qed.

(** C8. [_preprocess_forest_img] is deterministic and stateless: a second
    run on the same image, started from the object the first run left
    behind, gives the same outcome; neither run changes the object; and the
    outcome is the same on any other [TreeCounter]. *)
Theorem preprocess_deterministic_stateless :
  forall (img : ndarray) (self other : TreeCounter),
    let run1 := _preprocess_forest_img img self in
    let run2 := _preprocess_forest_img img (snd run1) in
    fst run2 = fst run1 /\
    snd run1 = self /\
    snd run2 = self /\
    fst (_preprocess_forest_img img other) = fst run1.
Proof.
  intros img self other.
  destruct (preprocess_independent img) as [r Hr].
  cbv zeta. rewrite !Hr. cbn [fst snd]. rewrite ?Hr. cbn [fst snd]. auto.
Qed.

(** ** The assertions of [count] *)

Lemma count_asserts_pure (rgb_image forest_mask : ndarray) (self : TreeCounter) :
  count_asserts rgb_image forest_mask self =
  ((py_assert (Nat.eqb 3 (length (shape rgb_image)))
      "RGB image array should be 3-dimensional" ;;;
    py_assert (Nat.eqb 2 (length (shape forest_mask)))
      "Forest mask array should be 2-dimensional" ;;;
    py_assert (shape_eqb (firstn 2 (shape rgb_image)) (shape forest_mask))
      "Forest mask should have the same height and width as RGB")%result, self).
Proof.
  unfold count_asserts, mbind, lift, py_assert, rbind.
  destruct (Nat.eqb 3 _); [|reflexivity].
  destruct (Nat.eqb 2 _); [|reflexivity].
  destruct (shape_eqb _ _); reflexivity.
Qed.

Lemma count_asserts_fail (rgb_image forest_mask : ndarray) (self : TreeCounter) :
  ndim rgb_image <> 3%nat \/ ndim forest_mask <> 2%nat
  \/ firstn 2 (shape rgb_image) <> shape forest_mask ->
  exists msg, count_asserts rgb_image forest_mask self = (Raise (AssertionError msg), self).
Proof.
  intros H. rewrite count_asserts_pure. unfold py_assert, rbind, ndim in *.
  destruct (Nat.eqb_spec 3 (length (shape rgb_image))) as [E3 | N3]; [|eauto].
  destruct (Nat.eqb_spec 2 (length (shape forest_mask))) as [E2 | N2]; [|eauto].
  destruct (shape_eqb _ _) eqn:Es; [|eauto].
  apply shape_eqb_eq in Es. destruct H as [H | [H | H]]; congruence.
Qed.

Lemma count_asserts_pass (rgb_image forest_mask : ndarray) (h w c : nat)
      (self : TreeCounter) :
  shape rgb_image = [h; w; c] -> shape forest_mask = [h; w] ->
  count_asserts rgb_image forest_mask self = (Ok tt, self).
Proof.
  intros Hr Hm. rewrite count_asserts_pure, Hr, Hm.
  cbn [length firstn Nat.eqb py_assert rbind]. now rewrite shape_eqb_refl.
Qed.

(** C9. The assertions of [count] never look at the number of channels: a
    three-dimensional array of any depth [c] (5, say) passes them together
    with a mask of its height and width. *)
Theorem count_asserts_ignore_channels :
  forall (h w c : nat) (rgb_data mask_data : list Z) (self : TreeCounter),
    count_asserts (mkArr [h; w; c] rgb_data) (mkArr [h; w] mask_data) self = (Ok tt, self).
Proof.
  intros. now apply (count_asserts_pass _ _ h w c).
Qed.

Section CountShape.
Context {CA : ContourAnalysis}.
Variable cv2_version : string.

(** C2, as the code has it. When the RGB array is not three-dimensional,
    or the mask is not two-dimensional, or the mask's shape is not the RGB
    array's height and width, [count] raises [AssertionError]: it returns no
    result at all and leaves the object untouched. *)
Theorem count_shape_mismatch_AssertionError :
  forall (rgb_image forest_mask : ndarray) (self : TreeCounter),
    ndim rgb_image <> 3%nat \/ ndim forest_mask <> 2%nat
    \/ firstn 2 (shape rgb_image) <> shape forest_mask ->
    raises (fst (count cv2_version rgb_image forest_mask self)) "AssertionError"
    /\ snd (count cv2_version rgb_image forest_mask self) = self.
Proof.
  intros rgb_image forest_mask self H.
  destruct (count_asserts_fail rgb_image forest_mask self H) as [msg Hmsg].
  unfold count. rewrite (mbind_raise _ _ _ _ _ Hmsg). cbn [fst snd].
  split; [exists msg|]; reflexivity.
Qed.

End CountShape.

(** C2, witness: a two-dimensional "RGB" array. *)
Lemma count_shape_mismatch_AssertionError_witness :
  let rgb := mkArr [2; 2]%nat [0; 0; 0; 0] in
  let mask := mkArr [2; 2]%nat [1; 1; 1; 1] in
  (ndim rgb <> 3%nat \/ ndim mask <> 2%nat \/ firstn 2 (shape rgb) <> shape mask)
  /\ raises (fst (count (CA := PixelContours.analysis) "4.1.0" rgb mask (__init__ false)))
            "AssertionError"
  /\ snd (count (CA := PixelContours.analysis) "4.1.0" rgb mask (__init__ false))
     = __init__ false.
Proof.
  intros rgb mask.
  assert (H : ndim rgb <> 3%nat \/ ndim mask <> 2%nat
              \/ firstn 2 (shape rgb) <> shape mask) by (left; cbn; lia).
  split; [exact H|].
  apply (count_shape_mismatch_AssertionError (CA := PixelContours.analysis)
           "4.1.0" rgb mask (__init__ false) H).
Defined.

(** C2, as the specification words it, fails: on a two-dimensional "RGB"
    array [count] raises, but what it raises is not [ShapeMismatchError]. *)
Lemma count_shape_mismatch_not_ShapeMismatchError :
  ndim (mkArr [2; 2]%nat [0; 0; 0; 0]) <> 3%nat
  /\ fst (count (CA := PixelContours.analysis) "4.1.0"
            (mkArr [2; 2]%nat [0; 0; 0; 0]) (mkArr [2; 2]%nat [1; 1; 1; 1])
            (__init__ false))
     = Raise (AssertionError "RGB image array should be 3-dimensional")
  /\ ~ raises (fst (count (CA := PixelContours.analysis) "4.1.0"
                      (mkArr [2; 2]%nat [0; 0; 0; 0]) (mkArr [2; 2]%nat [1; 1; 1; 1])
                      (__init__ false))) "ShapeMismatchError".
Proof.
  split; [cbn; lia|]. split; [reflexivity|].
  intros [msg H]. vm_compute in H. discriminate H.
Qed.

(** ** [count] and the attributes of the object *)

Lemma independent_reads_params_only {A : Type} (m : M A) :
  independent_of_self m -> reads_params_only m.
Proof.
  intros [r Hr] s1 s2 _. rewrite !Hr. auto.
Qed.

Lemma reads_params_only_mbind {A B : Type} (m : M A) (k : A -> M B) :
  reads_params_only m ->
  (forall x, reads_params_only (k x)) ->
  reads_params_only (mbind m k).
Proof.
  intros Hm Hk s1 s2 Hp.
  destruct (Hm s1 s2 Hp) as [Hf Hs1].
  destruct (Hm s2 s1 (eq_sym Hp)) as [_ Hs2].
  unfold mbind.
  destruct (m s1) as [r1 t1], (m s2) as [r2 t2]. cbn [fst snd] in *. subst.
  destruct r2 as [x | e |]; cbn [fst snd]; auto.
  apply (Hk x s1 s2 Hp).
Qed.

Lemma reads_params_only_get_params : reads_params_only (get_attr params).
Proof. intros s1 s2 Hp. unfold get_attr. cbn. split; congruence. Qed.

Section CountAttributes.
Context {CA : ContourAnalysis}.
Variable cv2_version : string.

Lemma count_asserts_independent (rgb_image forest_mask : ndarray) :
  independent_of_self (count_asserts rgb_image forest_mask).
Proof.
  eexists. intros self. apply count_asserts_pure.
Qed.

Lemma detect_blobs_independent (img : ndarray) (p : option Params) :
  independent_of_self (_detect_blobs cv2_version img p).
Proof.
  unfold _detect_blobs. apply independent_mbind; auto with methods.
Qed.

Lemma count_reads_params_only (rgb_image forest_mask : ndarray) :
  reads_params_only (count cv2_version rgb_image forest_mask).
Proof.
  unfold count.
  apply reads_params_only_mbind;
    [apply independent_reads_params_only, count_asserts_independent | intros _].
  apply reads_params_only_mbind;
    [apply independent_reads_params_only; auto with methods | intros m1].
  apply reads_params_only_mbind;
    [apply independent_reads_params_only; auto with methods | intros [m2|]].
  - apply reads_params_only_mbind;
      [apply independent_reads_params_only, preprocess_independent | intros img].
    apply reads_params_only_mbind; [apply reads_params_only_get_params | intros p].
    apply reads_params_only_mbind;
      [apply independent_reads_params_only, detect_blobs_independent | intros kps].
    apply independent_reads_params_only; auto with methods.
  - apply independent_reads_params_only; auto with methods.
Qed.

(** C10. The outcome of [count] does not depend on [return_locations]: two
    counters that differ in that flag only, and in particular two counters
    built by [__init__] with different flags, give the same outcome on
    every tile and mask; the flag itself is left as it was. *)
Theorem count_ignores_return_locations :
  forall (rgb_image forest_mask : ndarray) (p : Params) (flag1 flag2 : bool),
    fst (count cv2_version rgb_image forest_mask (mkTreeCounter p flag1))
    = fst (count cv2_version rgb_image forest_mask (mkTreeCounter p flag2))
    /\ fst (count cv2_version rgb_image forest_mask (__init__ flag1))
       = fst (count cv2_version rgb_image forest_mask (__init__ flag2))
    /\ snd (count cv2_version rgb_image forest_mask (__init__ flag1)) = __init__ flag1.
Proof.
  intros.
  pose proof (count_reads_params_only rgb_image forest_mask) as H.
  split; [|split].
  - apply (H (mkTreeCounter p flag1) (mkTreeCounter p flag2)). reflexivity.
  - apply (H (__init__ flag1) (__init__ flag2)). reflexivity.
  - apply (H (__init__ flag1) (__init__ flag1)). reflexivity.
Qed.

End CountAttributes.

(** ** Rounding and saturation *)

Lemma cvRound_comp (q q' : Q) : (q == q')%Q -> cvRound q = cvRound q'.
Proof.
  intros H. unfold cvRound. rewrite (Qfloor_comp _ _ H).
  assert (E : (q - inject_Z (Qfloor q') ?= 1 # 2)%Q = (q' - inject_Z (Qfloor q') ?= 1 # 2)%Q).
  { apply Qcompare_comp; [rewrite H|]; reflexivity. }
  rewrite E. reflexivity.
Qed.

Lemma cvRound_cases (q : Q) :
  (cvRound q = Qfloor q /\ (q - inject_Z (Qfloor q) <= 1 # 2)%Q)
  \/ (cvRound q = Qfloor q + 1 /\ (1 # 2 <= q - inject_Z (Qfloor q))%Q).
Proof.
  unfold cvRound. destruct (Qcompare_spec (q - inject_Z (Qfloor q)) (1 # 2)) as [E | L | G].
  - destruct (Z.even (Qfloor q)); [left | right]; split; auto; rewrite E; lra.
  - left. split; [reflexivity | lra].
  - right. split; [reflexivity | lra].
Qed.

(** Rounding stays on the right side of any half-integer. *)
Lemma cvRound_ge (n : Z) (q : Q) : (inject_Z n - (1 # 2) < q)%Q -> n <= cvRound q.
Proof.
  intros H. pose proof (Qfloor_le q) as Hlo. pose proof (Qlt_floor q) as Hhi.
  rewrite inject_Z_plus in Hhi.
  destruct (cvRound_cases q) as [[-> Hc] | [-> Hc]];
    apply Z.nlt_ge; intros Hlt.
  - assert (Hz : (inject_Z (Qfloor q + 1) <= inject_Z n)%Q) by (rewrite <- Zle_Qle; lia).
    rewrite inject_Z_plus in Hz. change (inject_Z 1) with 1%Q in *. lra.
  - assert (Hz : (inject_Z (Qfloor q + 1 + 1) <= inject_Z n)%Q) by (rewrite <- Zle_Qle; lia).
    rewrite !inject_Z_plus in Hz. change (inject_Z 1) with 1%Q in *. lra.
Qed.

Lemma cvRound_le (n : Z) (q : Q) : (q < inject_Z n + (1 # 2))%Q -> cvRound q <= n.
Proof.
  intros H. pose proof (Qfloor_le q) as Hlo. pose proof (Qlt_floor q) as Hhi.
  rewrite inject_Z_plus in Hhi.
  destruct (cvRound_cases q) as [[-> Hc] | [-> Hc]];
    apply Z.nlt_ge; intros Hlt.
  - assert (Hz : (inject_Z (n + 1) <= inject_Z (Qfloor q))%Q) by (rewrite <- Zle_Qle; lia).
    rewrite inject_Z_plus in Hz. change (inject_Z 1) with 1%Q in *. lra.
  - assert (Hz : (inject_Z (n + 1) <= inject_Z (Qfloor q + 1))%Q) by (rewrite <- Zle_Qle; lia).
    rewrite !inject_Z_plus in Hz. change (inject_Z 1) with 1%Q in *. lra.
Qed.

Lemma saturate_comp (q q' : Q) :
  (q == q')%Q -> saturate_cast_uchar q = saturate_cast_uchar q'.
Proof. intros H. unfold saturate_cast_uchar. now rewrite (cvRound_comp _ _ H). Qed.

Lemma saturate_range (q : Q) : 0 <= saturate_cast_uchar q <= 255.
Proof. unfold saturate_cast_uchar. lia. Qed.

Lemma saturate_ge (n : Z) (q : Q) :
  n <= 255 -> (inject_Z n - (1 # 2) < q)%Q -> n <= saturate_cast_uchar q.
Proof.
  intros Hn H. apply cvRound_ge in H. unfold saturate_cast_uchar. lia.
Qed.

Lemma saturate_le (n : Z) (q : Q) :
  0 <= n -> (q < inject_Z n + (1 # 2))%Q -> saturate_cast_uchar q <= n.
Proof.
  intros Hn H. apply cvRound_le in H. unfold saturate_cast_uchar. lia.
Qed.

(** Saturation is clipping: below the byte range it gives 0, above it 255,
    and inside it the nearest integer. *)
Lemma saturate_clips (q : Q) :
  ((q <= 0)%Q -> saturate_cast_uchar q = 0)
  /\ ((255 <= q)%Q -> saturate_cast_uchar q = 255)
  /\ ((0 <= q <= 255)%Q ->
      (inject_Z (saturate_cast_uchar q) - (1 # 2) <= q
       <= inject_Z (saturate_cast_uchar q) + (1 # 2))%Q).
Proof.
  pose proof (saturate_range q) as Hr.
  split; [|split].
  - intros H. assert (saturate_cast_uchar q <= 0); [|lia].
    apply saturate_le; [lia|]. change (inject_Z 0) with 0%Q. lra.
  - intros H. assert (255 <= saturate_cast_uchar q); [|lia].
    apply saturate_ge; [lia|]. change (inject_Z 255) with 255%Q. lra.
  - intros [H0 H255].
    assert (E : saturate_cast_uchar q = cvRound q).
    { assert (0 <= cvRound q).
      { apply cvRound_ge. change (inject_Z 0) with 0%Q. lra. }
      assert (cvRound q <= 255).
      { apply cvRound_le. change (inject_Z 255) with 255%Q. lra. }
      unfold saturate_cast_uchar. lia. }
    rewrite E. pose proof (Qfloor_le q) as Hlo. pose proof (Qlt_floor q) as Hhi.
    rewrite inject_Z_plus in Hhi. change (inject_Z 1) with 1%Q in Hhi.
    destruct (cvRound_cases q) as [[-> Hc] | [-> Hc]].
    + lra.
    + rewrite inject_Z_plus. change (inject_Z 1) with 1%Q. lra.
Qed.

(** ** Lists and arrays *)

Lemma map_combine_diag {A B : Type} (g : A * A -> B) (l : list A) :
  map g (combine l l) = map (fun v => g (v, v)) l.
Proof. induction l as [|x l IH]; cbn; [reflexivity | now rewrite IH]. Qed.

Lemma addWeighted_diag (src : ndarray) (alpha beta gamma : Q) :
  addWeighted src alpha src beta gamma
  = Ok (mkArr (shape src)
          (map (fun v => saturate_cast_uchar
                           (inject_Z v * alpha + inject_Z v * beta + gamma)%Q)
               (data src))).
Proof.
  unfold addWeighted. rewrite shape_eqb_refl, map_combine_diag. reflexivity.
Qed.

(** ** The brightness and contrast stages *)

Lemma brightness_px (b v : Z) :
  saturate_cast_uchar (inject_Z v * (inject_Z (255 - b) / 255) + inject_Z v * 0 + inject_Z b)%Q
  = spec_brightness b v.
Proof.
  apply saturate_comp. unfold Zminus. rewrite inject_Z_plus, inject_Z_opp.
  change (inject_Z 255) with 255%Q. field.
Qed.

Lemma contrast_px (c v : Z) :
  127 * (131 - c) <> 0 ->
  saturate_cast_uchar
    (inject_Z v * (inject_Z (131 * (c + 127)) / inject_Z (127 * (131 - c)))
     + inject_Z v * 0
     + 127 * (1 - inject_Z (131 * (c + 127)) / inject_Z (127 * (131 - c))))%Q
  = spec_contrast c v.
Proof.
  intros Hc. apply saturate_comp. unfold spec_gain.
  assert (Hq : ~ (131 - inject_Z c == 0)%Q).
  { intros E. apply Hc.
    assert (E' : (inject_Z (131 - c) == inject_Z 0)%Q).
    { unfold Zminus. rewrite inject_Z_plus, inject_Z_opp.
      change (inject_Z 131) with 131%Q. change (inject_Z 0) with 0%Q. lra. }
    apply -> inject_Z_injective in E'. lia. }
  rewrite !inject_Z_mult. unfold Zminus. rewrite !inject_Z_plus, inject_Z_opp.
  change (inject_Z 131) with 131%Q. change (inject_Z 127) with 127%Q.
  field. lra.
Qed.

Lemma apply_brightness_contrast_formula
      (input_img : ndarray) (brightness contrast : Z) (self : TreeCounter) :
  0 < brightness -> contrast <> 0 -> contrast <> 131 ->
  _apply_brightness_contrast input_img brightness contrast self
  = (Ok (mkArr (shape input_img)
           (map (fun v => spec_contrast contrast (spec_brightness brightness v))
                (data input_img))), self).
Proof.
  intros Hb Hc0 Hc131. unfold _apply_brightness_contrast.
  assert (Eb : (brightness =? 0) = false) by (apply Z.eqb_neq; lia).
  assert (Eg : (brightness >? 0) = true) by (apply Z.gtb_lt; lia).
  assert (Ec : (contrast =? 0) = false) by (now apply Z.eqb_neq).
  assert (Ed : (127 * (131 - contrast) =? 0) = false) by (apply Z.eqb_neq; lia).
  rewrite Eb, Eg, Ec, Ed. cbn [negb].
  unfold mbind, lift. rewrite addWeighted_diag, addWeighted_diag.
  cbn [shape data]. rewrite map_map. do 3 f_equal.
  apply map_ext. intros v. rewrite brightness_px, contrast_px by lia. reflexivity.
Qed.

(** ** Colour conversion, thresholding and morphology *)

Lemma cvtColor_gray (src : ndarray) (h w c : nat) :
  shape src = [h; w; c] -> (h * w)%nat <> 0%nat -> c = 3%nat \/ c = 4%nat ->
  exists gray, cvtColor src COLOR_BGR2GRAY = Ok gray
               /\ shape gray = [h; w] /\ length (data gray) = (h * w)%nat.
Proof.
  intros Hs Hn Hc. unfold cvtColor. rewrite Hs.
  destruct (Nat.eqb_spec (h * w) 0) as [E | _]; [contradiction|].
  assert (Ec : Nat.eqb c 3 || Nat.eqb c 4 = true).
  { destruct Hc; subst; reflexivity. }
  rewrite Ec. eexists. split; [reflexivity|]. cbn [shape data].
  split; [reflexivity|]. now rewrite length_map, length_seq.
Qed.

Lemma cvtColor_shape (src gray : ndarray) :
  cvtColor src COLOR_BGR2GRAY = Ok gray ->
  exists h w, shape gray = [h; w] /\ (h * w)%nat <> 0%nat
              /\ length (data gray) = (h * w)%nat.
Proof.
  unfold cvtColor. destruct (shape src) as [|h [|w [|c [|? ?]]]]; try discriminate.
  destruct (Nat.eqb_spec (h * w) 0) as [E | N]; [discriminate|].
  destruct (Nat.eqb c 3 || Nat.eqb c 4); [|discriminate].
  intros H. injection H as <-. exists h, w. cbn [shape data].
  now rewrite length_map, length_seq.
Qed.

Lemma size_of_2 (h w : nat) : size_of [h; w] = (h * w)%nat.
Proof. unfold size_of. cbn [fold_right]. lia. Qed.

Lemma threshold_ok (src : ndarray) (h w : nat) (thresh maxval : Z) (type : ThresholdTypes) :
  shape src = [h; w] -> (h * w)%nat <> 0%nat ->
  threshold src thresh maxval type
  = Ok (thresh, mkArr [h; w] (map (threshold_px thresh maxval type) (data src))).
Proof.
  intros Hs Hn. unfold threshold. rewrite Hs, size_of_2.
  destruct (Nat.eqb_spec (h * w) 0); [contradiction | reflexivity].
Qed.

Lemma threshold_px_binary (thresh : Z) (type : ThresholdTypes) (v : Z) :
  threshold_px thresh 255 type v = 0 \/ threshold_px thresh 255 type v = 255.
Proof. unfold threshold_px. destruct type, (v >? thresh); auto. Qed.

Lemma at2_In (src : ndarray) (r c v : Z) : at2 src r c = Some v -> In v (data src).
Proof.
  unfold at2. destruct (shape src) as [|h [|w [|? ?]]]; try discriminate.
  destruct (_ && _); [|discriminate]. apply nth_error_In.
Qed.

Lemma window_In (src : ndarray) (offs : list (Z * Z)) (r c v : Z) :
  In v (window src offs r c) -> In v (data src).
Proof.
  unfold window. rewrite in_flat_map. intros [d [_ H]].
  destruct (at2 src _ _) eqn:E; [|contradiction].
  destruct H as [<- | []]. eapply at2_In, E.
Qed.

Lemma morph_map_shape (pick : list Z -> Z) (src kernel : ndarray) :
  shape (morph_map pick src kernel) = shape src.
Proof.
  unfold morph_map. destruct (shape src) as [|h [|w [|? ?]]] eqn:E; auto.
Qed.

Lemma morph_map_length (pick : list Z -> Z) (src kernel : ndarray) (h w : nat) :
  shape src = [h; w] -> length (data (morph_map pick src kernel)) = (h * w)%nat.
Proof.
  intros Hs. unfold morph_map. rewrite Hs. cbn [data].
  now rewrite length_map, length_seq.
Qed.

(** A morphological operation whose choice among the pixels under the
    element stays within a set of levels keeps an image within that set. *)
Lemma morph_map_Forall (P : Z -> Prop) (pick : list Z -> Z) (src kernel : ndarray) :
  (forall l, Forall P l -> P (pick l)) ->
  Forall P (data src) -> Forall P (data (morph_map pick src kernel)).
Proof.
  intros Hpick Hsrc. unfold morph_map.
  destruct (shape src) as [|h [|w [|? ?]]]; auto.
  cbn [data]. apply Forall_map, Forall_forall. intros i _.
  apply Hpick, Forall_forall. intros v Hv.
  apply window_In in Hv. rewrite Forall_forall in Hsrc. auto.
Qed.

Lemma fold_min_levels (P : Z -> Prop) (top : Z) (l : list Z) :
  P top -> Forall P l -> P (fold_right Z.min top l).
Proof.
  intros Ht. induction 1 as [|x l Hx _ IH]; cbn; [assumption|].
  destruct (Z.min_spec x (fold_right Z.min top l)) as [[_ ->] | [_ ->]]; assumption.
Qed.

Lemma fold_max_levels (P : Z -> Prop) (bottom : Z) (l : list Z) :
  P bottom -> Forall P l -> P (fold_right Z.max bottom l).
Proof.
  intros Hb. induction 1 as [|x l Hx _ IH]; cbn; [assumption|].
  destruct (Z.max_spec x (fold_right Z.max bottom l)) as [[_ ->] | [_ ->]]; assumption.
Qed.

Lemma erode_binary (src kernel : ndarray) :
  binary (data src) -> binary (data (erode src kernel)).
Proof.
  apply morph_map_Forall. intros l Hl.
  apply (fold_min_levels (fun v => v = 0 \/ v = 255)); auto.
Qed.

Lemma dilate_binary (src kernel : ndarray) :
  binary (data src) -> binary (data (dilate src kernel)).
Proof.
  apply morph_map_Forall. intros l Hl.
  apply (fold_max_levels (fun v => v = 0 \/ v = 255)); auto.
Qed.

Lemma uint8_binary (src : ndarray) : binary (data src) -> binary (data (np.uint8 src)).
Proof.
  intros H. unfold np.uint8. cbn [data]. apply Forall_map.
  eapply Forall_impl; [|exact H]. intros v [-> | ->]; [left | right]; reflexivity.
Qed.

Lemma binarize_and_open_ok (l_channel : ndarray) (h w : nat) :
  shape l_channel = [h; w] -> (h * w)%nat <> 0%nat ->
  let mask0 := mkArr [h; w] (map (threshold_px 170 255 THRESH_BINARY) (data l_channel)) in
  binarize_and_open l_channel
  = Ok (np.uint8 (dilate (erode mask0 (np.ones [3; 3]%nat)) (np.ones [3; 3]%nat))).
Proof.
  intros Hs Hn mask0. unfold binarize_and_open.
  rewrite (threshold_ok _ h w) by assumption. cbn [rbind snd].
  unfold morphologyEx. fold mask0. change (shape mask0) with [h; w]. cbv beta iota.
  destruct (Nat.eqb_spec (h * w) 0); [contradiction | reflexivity].
Qed.

(** [_preprocess_forest_img], stage by stage: grey levels, then the two
    linear stages with [b = 64] and [c = 90], then the binarization and the
    opening. *)
Lemma preprocess_stages (img gray : ndarray) (self : TreeCounter) :
  cvtColor img COLOR_BGR2GRAY = Ok gray ->
  _preprocess_forest_img img self
  = (binarize_and_open
       (mkArr (shape gray)
          (map (fun v => spec_contrast 90 (spec_brightness 64 v)) (data gray))), self).
Proof.
  intros Hg. unfold _preprocess_forest_img.
  unfold mbind at 1. unfold lift at 1. rewrite Hg.
  erewrite mbind_ok by (apply apply_brightness_contrast_formula; lia).
  unfold binarize_and_open, mbind, lift, mret, rbind.
  destruct (threshold _ 170 255 THRESH_BINARY) as [[t m] | e |]; try reflexivity.
  cbn [snd]. destruct (morphologyEx m MORPH_OPEN _); reflexivity.
Qed.

(** C3. On a non-empty image of three (or four) channels,
    [_preprocess_forest_img] returns a mask that is two-dimensional (a
    single channel), has the height and width of the input, and whose
    pixels are all 0 or 255. *)
Theorem preprocess_output_binary_same_size :
  forall (img : ndarray) (h w c : nat) (self : TreeCounter),
    shape img = [h; w; c] -> (h * w)%nat <> 0%nat -> c = 3%nat \/ c = 4%nat ->
    exists mask_r,
      _preprocess_forest_img img self = (Ok mask_r, self)
      /\ shape mask_r = [h; w]
      /\ length (data mask_r) = (h * w)%nat
      /\ binary (data mask_r).
Proof.
  intros img h w c self Hs Hn Hc.
  destruct (cvtColor_gray img h w c Hs Hn Hc) as [gray [Hg [Hgs Hgl]]].
  rewrite (preprocess_stages img gray self Hg).
  rewrite (binarize_and_open_ok _ h w) by (cbn [shape]; assumption).
  eexists. split; [reflexivity|]. cbn [np.uint8 shape data].
  split; [|split].
  - unfold dilate, erode. now rewrite !morph_map_shape.
  - rewrite length_map. unfold dilate.
    apply morph_map_length. unfold erode. now rewrite morph_map_shape.
  - apply (uint8_binary (dilate _ _)), dilate_binary, erode_binary.
    cbn [data]. apply Forall_map, Forall_forall. intros v _.
    apply threshold_px_binary.
Qed.

(** C3, witness: a tile of two by two pixels. *)
Lemma preprocess_output_binary_same_size_witness :
  let img := mkArr [2; 2; 3]%nat [10; 20; 30; 255; 255; 255; 0; 0; 0; 90; 80; 70] in
  (shape img = [2; 2; 3]%nat /\ (2 * 2)%nat <> 0%nat /\ (3%nat = 3%nat \/ 3%nat = 4%nat))
  /\ exists mask_r,
      _preprocess_forest_img img (__init__ false) = (Ok mask_r, __init__ false)
      /\ shape mask_r = [2; 2]%nat
      /\ length (data mask_r) = (2 * 2)%nat
      /\ binary (data mask_r).
Proof.
  intros img. split.
  - split; [reflexivity|]. split; [discriminate | left; reflexivity].
  - apply (preprocess_output_binary_same_size img 2 2 3 (__init__ false));
      [reflexivity | discriminate | left; reflexivity].
Defined.

(** ** The binarization *)

Lemma spec_gain_90 : (spec_gain 90 == 28427 # 5207)%Q.
Proof. vm_compute. reflexivity. Qed.

(** With [c = 90] the contrast stage never produces the level 170: its
    outputs jump from 165 (at 134) to 171 (at 135). *)
Lemma contrast_90_never_170 (u : Z) : spec_contrast 90 u <> 170.
Proof.
  unfold spec_contrast. destruct (Z_le_gt_dec u 134) as [Hu | Hu].
  - assert (saturate_cast_uchar
              (spec_gain 90 * inject_Z u + 127 * (1 - spec_gain 90))%Q <= 165); [|lia].
    apply saturate_le; [lia|]. rewrite spec_gain_90.
    assert (Hq : (inject_Z u <= inject_Z 134)%Q) by (now rewrite <- Zle_Qle).
    change (inject_Z 134) with 134%Q in Hq. change (inject_Z 165) with 165%Q. lra.
  - assert (171 <= saturate_cast_uchar
                     (spec_gain 90 * inject_Z u + 127 * (1 - spec_gain 90))%Q); [|lia].
    apply saturate_ge; [lia|]. rewrite spec_gain_90.
    assert (Hq : (inject_Z 135 <= inject_Z u)%Q) by (rewrite <- Zle_Qle; lia).
    change (inject_Z 135) with 135%Q in Hq. change (inject_Z 171) with 171%Q. lra.
Qed.

(** [THRESH_BINARY] itself is strict: it and the specification's wording
    differ at the level 170 and nowhere else. *)
Lemma threshold_px_spec_binarize (v : Z) :
  v <> 170 -> threshold_px 170 255 THRESH_BINARY v = spec_binarize v.
Proof.
  intros Hv. unfold threshold_px, spec_binarize.
  destruct (Z.gtb_spec v 170), (Z.leb_spec 170 v); auto; lia.
Qed.

Lemma threshold_px_at_170 : threshold_px 170 255 THRESH_BINARY 170 = 0.
Proof. reflexivity. Qed.

(** On the images the two linear stages produce, the strict comparison and
    the specification's wording cannot be told apart, the level 170 being
    absent from them. *)
Lemma binarization_threshold_170 :
  forall (img gray : ndarray) (self : TreeCounter),
    cvtColor img COLOR_BGR2GRAY = Ok gray ->
    exists l_channel mask0,
      _apply_brightness_contrast gray 64 90 self = (Ok l_channel, self)
      /\ threshold l_channel 170 255 THRESH_BINARY = Ok (170, mask0)
      /\ shape mask0 = shape l_channel
      /\ data mask0 = map spec_binarize (data l_channel)
      /\ (forall v, 170 <= v -> spec_binarize v = 255)
      /\ (forall v, v < 170 -> spec_binarize v = 0)
      /\ _preprocess_forest_img img self
         = ((mask_r <- morphologyEx mask0 MORPH_OPEN (np.ones [3; 3]%nat) ;;
             Ok (np.uint8 mask_r))%result, self).
Proof.
  intros img gray self Hg.
  destruct (cvtColor_shape img gray Hg) as [h [w [Hs [Hn Hl]]]].
  eexists. eexists.
  split; [apply apply_brightness_contrast_formula; lia|].
  split; [apply (threshold_ok _ h w); [cbn [shape]; assumption | assumption]|].
  cbn [shape data]. split; [now rewrite Hs|]. split; [|split; [|split]].
  - rewrite !map_map. apply map_ext. intros v.
    apply threshold_px_spec_binarize, contrast_90_never_170.
  - intros v Hv. unfold spec_binarize. destruct (Z.leb_spec 170 v); [reflexivity | lia].
  - intros v Hv. unfold spec_binarize. destruct (Z.leb_spec 170 v); [lia | reflexivity].
  - rewrite (preprocess_stages img gray self Hg). unfold binarize_and_open.
    rewrite (threshold_ok _ h w) by (cbn [shape]; assumption).
    reflexivity.
Qed.




(** ** The two linear stages *)

Lemma saturate_Z (n : Z) : 0 <= n <= 255 -> saturate_cast_uchar (inject_Z n) = n.
Proof.
  intros Hn.
  assert (n <= saturate_cast_uchar (inject_Z n)) by (apply saturate_ge; [lia | lra]).
  assert (saturate_cast_uchar (inject_Z n) <= n) by (apply saturate_le; [lia | lra]).
  lia.
Qed.

Lemma spec_brightness_range (b v : Z) :
  0 < b <= 255 -> 0 <= v <= 255 -> b <= spec_brightness b v <= 255.
Proof.
  intros [Hb0 Hb1] [Hv0 Hv1]. unfold spec_brightness.
  assert (Qb0 : (inject_Z 0 <= inject_Z b)%Q) by (rewrite <- Zle_Qle; lia).
  assert (Qb1 : (inject_Z b <= inject_Z 255)%Q) by (now rewrite <- Zle_Qle).
  assert (Qv0 : (inject_Z 0 <= inject_Z v)%Q) by (now rewrite <- Zle_Qle).
  assert (Qv1 : (inject_Z v <= inject_Z 255)%Q) by (now rewrite <- Zle_Qle).
  change (inject_Z 0) with 0%Q in *. change (inject_Z 255) with 255%Q in *.
  set (ib := inject_Z b) in *. set (iv := inject_Z v) in *.
  assert (Hp : (0 <= iv * (255 - ib))%Q) by (apply Qmult_le_0_compat; lra).
  assert (Hr : (0 <= (255 - iv) * (255 - ib))%Q) by (apply Qmult_le_0_compat; lra).
  assert (E : (ib + iv * (255 - ib) / 255 == ib + (1 # 255) * (iv * (255 - ib)))%Q)
    by field.
  rewrite (saturate_comp _ _ E).
  split.
  - apply saturate_ge; [assumption|]. fold ib. lra.
  - apply saturate_le; [lia|]. change (inject_Z 255) with 255%Q.
    assert (Hr' : ((255 - iv) * (255 - ib) == 255 * (255 - ib) - iv * (255 - ib))%Q) by ring.
    rewrite Hr' in Hr. lra.
Qed.

Lemma spec_brightness_ends (b : Z) :
  0 < b <= 255 -> spec_brightness b 0 = b /\ spec_brightness b 255 = 255.
Proof.
  intros Hb. unfold spec_brightness. split.
  - transitivity (saturate_cast_uchar (inject_Z b)); [|apply saturate_Z; lia].
    apply saturate_comp. change (inject_Z 0) with 0%Q. field.
  - transitivity (saturate_cast_uchar (inject_Z 255)); [|apply saturate_Z; lia].
    apply saturate_comp. change (inject_Z 255) with 255%Q. field.
Qed.

Lemma apply_contrast_formula (input_img : ndarray) (contrast : Z) (self : TreeCounter) :
  contrast <> 0 -> contrast <> 131 ->
  _apply_brightness_contrast input_img 0 contrast self
  = (Ok (mkArr (shape input_img) (map (spec_contrast contrast) (data input_img))), self).
Proof.
  intros Hc0 Hc131. unfold _apply_brightness_contrast.
  assert (Ec : (contrast =? 0) = false) by (now apply Z.eqb_neq).
  assert (Ed : (127 * (131 - contrast) =? 0) = false) by (apply Z.eqb_neq; lia).
  rewrite Ec, Ed. cbn [Z.eqb negb].
  unfold mbind, mret, lift. rewrite addWeighted_diag.
  cbn [np.copy shape data]. do 3 f_equal.
  apply map_ext. intros v. rewrite contrast_px by lia. reflexivity.
Qed.

Lemma apply_brightness_formula (input_img : ndarray) (brightness : Z) (self : TreeCounter) :
  0 < brightness ->
  _apply_brightness_contrast input_img brightness 0 self
  = (Ok (mkArr (shape input_img) (map (spec_brightness brightness) (data input_img))), self).
Proof.
  intros Hb. unfold _apply_brightness_contrast.
  assert (Eb : (brightness =? 0) = false) by (apply Z.eqb_neq; lia).
  assert (Eg : (brightness >? 0) = true) by (apply Z.gtb_lt; lia).
  rewrite Eb, Eg. cbn [Z.eqb negb].
  unfold mbind, mret, lift. rewrite addWeighted_diag. do 3 f_equal.
  apply map_ext. intros v. now rewrite brightness_px.
Qed.

(** C5. The contrast stage has gain [f = 131*(c+127) / (127*(131-c))] and
    sends every intensity [v] to [f*v + 127*(1-f)] clipped to [[0,255]]; the
    brightness stage, for [b > 0], is the linear map of [[0,255]] onto
    [[b,255]]; [_preprocess_forest_img] applies both, with [b = 64] and
    [c = 90], to the grey image. *)
Theorem brightness_contrast_stages :
  (forall (img : ndarray) (c : Z) (self : TreeCounter),
      c <> 0 -> c <> 131 ->
      _apply_brightness_contrast img 0 c self
      = (Ok (mkArr (shape img) (map (spec_contrast c) (data img))), self))
  /\ (forall (img : ndarray) (b : Z) (self : TreeCounter),
      0 < b ->
      _apply_brightness_contrast img b 0 self
      = (Ok (mkArr (shape img) (map (spec_brightness b) (data img))), self))
  /\ (forall (img : ndarray) (b c : Z) (self : TreeCounter),
      0 < b -> c <> 0 -> c <> 131 ->
      _apply_brightness_contrast img b c self
      = (Ok (mkArr (shape img)
               (map (fun v => spec_contrast c (spec_brightness b v)) (data img))), self))
  /\ (forall c v : Z, 0 <= spec_contrast c v <= 255)
  /\ (forall c v : Z,
      let q := (spec_gain c * inject_Z v + 127 * (1 - spec_gain c))%Q in
      ((q <= 0)%Q -> spec_contrast c v = 0)
      /\ ((255 <= q)%Q -> spec_contrast c v = 255)
      /\ ((0 <= q <= 255)%Q ->
          (inject_Z (spec_contrast c v) - (1 # 2) <= q
           <= inject_Z (spec_contrast c v) + (1 # 2))%Q))
  /\ (forall b v : Z, 0 < b <= 255 -> 0 <= v <= 255 -> b <= spec_brightness b v <= 255)
  /\ (forall b : Z, 0 < b <= 255 -> spec_brightness b 0 = b /\ spec_brightness b 255 = 255)
  /\ (forall (img gray : ndarray) (self : TreeCounter),
      cvtColor img COLOR_BGR2GRAY = Ok gray ->
      _preprocess_forest_img img self
      = (binarize_and_open
           (mkArr (shape gray)
              (map (fun v => spec_contrast 90 (spec_brightness 64 v)) (data gray))), self)).
Proof.
  split; [exact apply_contrast_formula|].
  split; [exact apply_brightness_formula|].
  split; [exact apply_brightness_contrast_formula|].
  split; [intros c v; apply saturate_range|].
  split; [intros c v; apply saturate_clips|].
  split; [exact spec_brightness_range|].
  split; [exact spec_brightness_ends|].
  exact preprocess_stages.
Qed.

(** C5, witness: the stages on a row of three pixels, with the pipeline's
    [b = 64] and [c = 90]. *)
Lemma brightness_contrast_stages_witness :
  let img := mkArr [1; 3]%nat [0; 88; 255] in
  (0 < 64 /\ 90 <> 0 /\ 90 <> 131)
  /\ _apply_brightness_contrast img 64 90 (__init__ false)
     = (Ok (mkArr [1; 3]%nat [0; 143; 255]), __init__ false)
  /\ 64 <= spec_brightness 64 88 <= 255.
Proof.
  intros img.
  destruct brightness_contrast_stages as [_ [_ [Hboth [_ [_ [Hrange _]]]]]].
  split; [lia|]. split.
  - rewrite (Hboth img 64 90 (__init__ false)) by lia. vm_compute. reflexivity.
  - apply Hrange; lia.
Defined.

(** ** Constant images through the pipeline *)

Lemma map_seq_const {B : Type} (g : nat -> B) (v : B) (n start : nat) :
  (forall i, (start <= i < start + n)%nat -> g i = v) ->
  map g (seq start n) = repeat v n.
Proof.
  revert start. induction n as [|n IH]; intros start H; cbn; [reflexivity|].
  rewrite H by lia. f_equal. apply IH. intros i Hi. apply H. lia.
Qed.

Lemma nth_all_zero (l : list Z) (k : nat) : Forall (fun v => v = 0) l -> nth k l 0 = 0.
Proof.
  intros H. revert k. induction H as [|x l Hx _ IH]; intros [|k]; cbn; auto.
Qed.

Lemma size_of_3 (h w c : nat) : size_of [h; w; c] = (h * w * c)%nat.
Proof. unfold size_of. cbn [fold_right]. lia. Qed.

Lemma bitwise_and_zero_mask (rgb_image forest_mask : ndarray) (h w c : nat) :
  shape rgb_image = [h; w; c] -> shape forest_mask = [h; w] ->
  (h * w * c)%nat <> 0%nat ->
  Forall (fun v => v = 0) (data forest_mask) ->
  bitwise_and rgb_image rgb_image forest_mask
  = Ok (Some (mkArr [h; w; c] (repeat 0 (h * w * c)))).
Proof.
  intros Hr Hm Hn Hz. unfold bitwise_and. rewrite Hr, Hm, !shape_eqb_refl.
  cbn [andb]. rewrite (map_seq_const _ 0).
  - unfold pyopencv_from. cbn [shape]. rewrite size_of_3.
    destruct (Nat.eqb_spec (h * w * c) 0); [contradiction | reflexivity].
  - intros i _. now rewrite nth_all_zero.
Qed.

Lemma bitwise_not_zeros (h w c : nat) :
  (h * w * c)%nat <> 0%nat ->
  bitwise_not (Some (mkArr [h; w; c] (repeat 0 (h * w * c))))
  = Ok (Some (mkArr [h; w; c] (repeat 255 (h * w * c)))).
Proof.
  intros Hn. unfold bitwise_not, pyopencv_from. cbn [shape data].
  rewrite size_of_3, map_repeat.
  destruct (Nat.eqb_spec (h * w * c) 0); [contradiction | reflexivity].
Qed.

Lemma cvtColor_white (h w c : nat) :
  (h * w)%nat <> 0%nat -> c = 3%nat \/ c = 4%nat ->
  cvtColor (mkArr [h; w; c] (repeat 255 (h * w * c))) COLOR_BGR2GRAY
  = Ok (const_img h w 255).
Proof.
  intros Hn Hc. unfold cvtColor. cbn [shape data].
  destruct (Nat.eqb_spec (h * w) 0); [contradiction|].
  assert (Ec : Nat.eqb c 3 || Nat.eqb c 4 = true) by (destruct Hc; subst; reflexivity).
  rewrite Ec. unfold const_img. do 2 f_equal.
  apply map_seq_const. intros i Hi.
  rewrite !nth_repeat_lt by (destruct Hc; subst; lia). reflexivity.
Qed.

Lemma at2_const (h w : nat) (v r c : Z) :
  0 <= r < Z.of_nat h -> 0 <= c < Z.of_nat w -> at2 (const_img h w v) r c = Some v.
Proof.
  intros Hr Hc. unfold at2, const_img. cbn [shape data].
  destruct (Z.leb_spec 0 r), (Z.ltb_spec r (Z.of_nat h)),
           (Z.leb_spec 0 c), (Z.ltb_spec c (Z.of_nat w)); try lia.
  cbn [andb]. apply nth_error_repeat. nia.
Qed.

Lemma pixel_row_col (h w i : nat) :
  (i < h * w)%nat ->
  0 <= Z.of_nat (i / w) < Z.of_nat h /\ 0 <= Z.of_nat (i mod w) < Z.of_nat w.
Proof.
  intros Hi. assert (Hw : w <> 0%nat) by (intros ->; lia).
  split; split; try lia.
  - apply Nat2Z.inj_lt, Nat.Div0.div_lt_upper_bound. lia.
  - apply Nat2Z.inj_lt, Nat.mod_upper_bound, Hw.
Qed.

Lemma In_const_data (h w : nat) (v x : Z) : In x (data (const_img h w v)) -> x = v.
Proof. unfold const_img. cbn [data]. apply repeat_spec. Qed.

Lemma fold_min_all (top : Z) (l : list Z) :
  (forall x, In x l -> x = top) -> fold_right Z.min top l = top.
Proof.
  intros H. apply (fold_min_levels (fun x => x = top)); [reflexivity|].
  apply Forall_forall. exact H.
Qed.

Lemma fold_max_all (bottom v : Z) (l : list Z) :
  bottom <= v -> In v l -> (forall x, In x l -> x = v) -> fold_right Z.max bottom l = v.
Proof.
  intros Hb Hin H. induction l as [|x l IH]; [contradiction|].
  cbn. rewrite (H x) by (now left).
  destruct l as [|y l'].
  - cbn. lia.
  - rewrite IH; [lia | | ].
    + left. apply H. right. now left.
    + intros z Hz. apply H. now right.
Qed.

Lemma erode_const (h w : nat) (kernel : ndarray) :
  erode (const_img h w 255) kernel = const_img h w 255.
Proof.
  unfold erode, morph_map, const_img. cbn [shape]. f_equal.
  fold (const_img h w 255).
  apply map_seq_const. intros i _. apply fold_min_all.
  intros x Hx. apply window_In in Hx. now apply In_const_data in Hx.
Qed.

Lemma dilate_const (h w : nat) (v : Z) (kernel : ndarray) :
  0 <= v -> In (0, 0) (kernel_offsets kernel) ->
  dilate (const_img h w v) kernel = const_img h w v.
Proof.
  intros Hv Hk. unfold dilate, morph_map, const_img. cbn [shape]. f_equal.
  fold (const_img h w v).
  apply map_seq_const. intros i Hi. apply fold_max_all; [assumption | |].
  - unfold window. apply in_flat_map. exists (0, 0). split; [assumption|].
    cbn [fst snd]. rewrite !Z.add_0_r.
    destruct (pixel_row_col h w i) as [Hr Hc]; [lia|].
    rewrite at2_const by assumption. now left.
  - intros x Hx. apply window_In in Hx. now apply In_const_data in Hx.
Qed.

Lemma binarize_and_open_white (h w : nat) :
  (h * w)%nat <> 0%nat ->
  binarize_and_open (const_img h w 255) = Ok (const_img h w 255).
Proof.
  intros Hn. rewrite (binarize_and_open_ok _ h w) by (auto; reflexivity).
  cbv zeta. unfold const_img at 1. cbn [data]. rewrite map_repeat.
  change (threshold_px 170 255 THRESH_BINARY 255) with 255.
  fold (const_img h w 255). rewrite erode_const, dilate_const.
  - unfold np.uint8, const_img. cbn [shape data]. now rewrite map_repeat.
  - lia.
  - vm_compute. auto 10.
Qed.

Lemma preprocess_white (h w c : nat) (self : TreeCounter) :
  (h * w)%nat <> 0%nat -> c = 3%nat \/ c = 4%nat ->
  _preprocess_forest_img (mkArr [h; w; c] (repeat 255 (h * w * c))) self
  = (Ok (const_img h w 255), self).
Proof.
  intros Hn Hc. rewrite (preprocess_stages _ _ self (cvtColor_white h w c Hn Hc)).
  unfold const_img at 1 2. cbn [shape data]. rewrite map_repeat.
  replace (spec_contrast 90 (spec_brightness 64 255)) with 255 by (vm_compute; reflexivity).
  fold (const_img h w 255). now rewrite binarize_and_open_white.
Qed.

(** ** The detector on an image without dark pixels *)

Section DetectorFacts.
Context {CA : ContourAnalysis} {CC : ContourContract CA}.

(** With the colour filter on, a contour whose centre lies on a pixel that
    is not of the blob colour is dropped, whatever the other filters say. *)
Lemma examine_rejects_colour (p : Params) (binaryImage : ndarray) (c : contour) :
  filterByColor p = true ->
  (forall v, In v (data binaryImage) -> v <> blobColor p) ->
  In c (findContours binaryImage) ->
  examine p binaryImage c = Ok None.
Proof.
  intros Hcol Hpix Hin. unfold examine.
  destruct (negb (area_passes p (m00 (moments c)))); [reflexivity|].
  destruct (filterByCircularity p && _); [reflexivity|].
  destruct (filterByInertia p && _); [reflexivity|].
  destruct (filterByConvexity p && _); [reflexivity|].
  destruct (Qeq_bool (m00 (moments c)) 0) eqn:Em; [reflexivity|].
  apply Qeq_bool_neq in Em. rewrite Hcol.
  pose proof (centre_inside binaryImage c Hin Em) as Hc.
  destruct (at2 binaryImage _ _) as [v|] eqn:Ev; [|contradiction].
  apply at2_In, Hpix in Ev. apply Z.eqb_neq in Ev. now rewrite Ev.
Qed.

Lemma findBlobs_loop_none (p : Params) (binaryImage : ndarray) (cs : list contour) :
  (forall c, In c cs -> examine p binaryImage c = Ok None) ->
  findBlobs_loop p binaryImage cs = Ok [].
Proof.
  induction cs as [|c cs IH]; intros H; cbn [findBlobs_loop]; [reflexivity|].
  rewrite (H c) by (now left). cbn [rbind].
  rewrite IH by (intros c' Hc'; apply H; now right). reflexivity.
Qed.

Lemma findBlobs_no_blob_colour (p : Params) (binaryImage : ndarray) :
  filterByColor p = true ->
  (forall v, In v (data binaryImage) -> v <> blobColor p) ->
  findBlobs p binaryImage = Ok [].
Proof.
  intros Hcol Hpix. unfold findBlobs. apply findBlobs_loop_none.
  intros c Hc. now apply examine_rejects_colour.
Qed.

Lemma threshold_white (h w : nat) (thresh : Z) :
  (h * w)%nat <> 0%nat -> thresh < 255 ->
  threshold (const_img h w 255) thresh 255 THRESH_BINARY = Ok (thresh, const_img h w 255).
Proof.
  intros Hn Ht. rewrite (threshold_ok _ h w) by (auto; reflexivity).
  unfold const_img. cbn [data]. rewrite map_repeat. unfold threshold_px.
  destruct (Z.gtb_spec 255 thresh); [reflexivity | lia].
Qed.

Lemma sweep_white (p : Params) (h w : nat) (levels : list Q) :
  (h * w)%nat <> 0%nat ->
  filterByColor p = true -> blobColor p <> 255 ->
  Forall (fun t => Qfloor t < 255) levels ->
  sweep p (const_img h w 255) levels [] = Ok [].
Proof.
  intros Hn Hcol Hblob Hl. induction Hl as [|t levels Ht _ IH]; cbn [sweep]; [reflexivity|].
  rewrite threshold_white by assumption. cbn [rbind snd].
  rewrite findBlobs_no_blob_colour; [exact IH | assumption |].
  intros v Hv. apply In_const_data in Hv. congruence.
Qed.

Lemma blob_params_levels :
  exists levels, threshold_levels _get_blob_params = Some levels
                 /\ Forall (fun t => Qfloor t < 255) levels.
Proof.
  eexists. split; [vm_compute; reflexivity|].
  repeat constructor.
Qed.

Lemma detect_white (h w : nat) :
  (h * w)%nat <> 0%nat ->
  detect _get_blob_params (const_img h w 255) = Ok [].
Proof.
  intros Hn. unfold detect.
  change (minRepeatability _get_blob_params) with 2%nat. cbn [Nat.eqb].
  change (shape (const_img h w 255)) with [h; w]. cbn [rbind].
  destruct blob_params_levels as [levels [-> Hl]].
  rewrite sweep_white; [reflexivity | assumption | reflexivity | discriminate | assumption].
Qed.

Variable cv2_version : string.

Lemma detect_blobs_white (h w : nat) (self : TreeCounter) :
  (h * w)%nat <> 0%nat ->
  _detect_blobs cv2_version (const_img h w 255) (Some _get_blob_params) self
  = (Ok [], self).
Proof.
  intros Hn. unfold _detect_blobs, mbind, lift, mret.
  destruct (String.prefix "2." cv2_version); now rewrite detect_white.
Qed.

(** On a non-empty tile of three channels under a mask that is zero
    everywhere, a counter built by [__init__] finds nothing: the count is 0
    and both lists are present and empty. *)
Lemma count_zero_mask_nonempty :
  forall (rgb_image forest_mask : ndarray) (h w : nat) (flag : bool),
    shape rgb_image = [h; w; 3%nat] -> shape forest_mask = [h; w] ->
    (h * w)%nat <> 0%nat ->
    Forall (fun v => v = 0) (data forest_mask) ->
    count cv2_version rgb_image forest_mask (__init__ flag)
    = (Ok (Result.mk (Some []) 0 (Some [])), __init__ flag).
Proof.
  intros rgb_image forest_mask h w flag Hr Hm Hn Hz.
  assert (Hn3 : (h * w * 3)%nat <> 0%nat) by lia.
  unfold count.
  rewrite (mbind_ok _ _ _ _ _ (count_asserts_pass _ _ h w 3 _ Hr Hm)).
  unfold mbind at 1, lift at 1.
  rewrite (bitwise_and_zero_mask _ _ h w 3 Hr Hm Hn3 Hz).
  unfold mbind at 1, lift at 1. rewrite (bitwise_not_zeros h w 3 Hn3).
  rewrite (mbind_ok _ _ _ _ _ (preprocess_white h w 3 _ Hn (or_introl eq_refl))).
  unfold mbind at 1, get_attr. cbn [params __init__].
  rewrite (mbind_ok _ _ _ _ _ (detect_blobs_white h w _ Hn)).
  reflexivity.
Qed.

(** On a tile without pixels the masking gives [None], the inversion passes
    it on, and the guard of [count] answers with absent lists. *)
Lemma count_empty_tile (rgb_image forest_mask : ndarray) (h w c : nat)
      (self : TreeCounter) :
  shape rgb_image = [h; w; c] -> shape forest_mask = [h; w] ->
  (h * w * c)%nat = 0%nat ->
  count cv2_version rgb_image forest_mask self = (Ok (Result.mk None 0 None), self).
Proof.
  intros Hr Hm Hn. unfold count.
  rewrite (mbind_ok _ _ _ _ _ (count_asserts_pass _ _ h w c _ Hr Hm)).
  assert (Ea : bitwise_and rgb_image rgb_image forest_mask = Ok None).
  { unfold bitwise_and. rewrite Hr, Hm, !shape_eqb_refl. cbn [andb].
    unfold pyopencv_from. cbn [shape]. rewrite size_of_3, Hn. reflexivity. }
  unfold mbind at 1, lift at 1. rewrite Ea. reflexivity.
Qed.

(** C1, as the code has it. For every RGB tile of three channels and every
    forest mask of its height and width that is zero everywhere, [count], on
    a counter built by [__init__], returns a dictionary whose count is 0.
    When the tile has pixels, the lists of trees and of key points are
    present and empty; when it has none (no rows or no columns), the guard
    after the inversion returns both lists as [None]. *)
Theorem count_zero_mask :
  forall (rgb_image forest_mask : ndarray) (h w : nat) (flag : bool),
    shape rgb_image = [h; w; 3%nat] -> shape forest_mask = [h; w] ->
    Forall (fun v => v = 0) (data forest_mask) ->
    ((h * w)%nat <> 0%nat ->
     count cv2_version rgb_image forest_mask (__init__ flag)
     = (Ok (Result.mk (Some []) 0 (Some [])), __init__ flag))
    /\ ((h * w)%nat = 0%nat ->
        count cv2_version rgb_image forest_mask (__init__ flag)
        = (Ok (Result.mk None 0 None), __init__ flag))
    /\ exists r,
        count cv2_version rgb_image forest_mask (__init__ flag) = (Ok r, __init__ flag)
        /\ Result.count r = 0.
Proof.
  intros rgb_image forest_mask h w flag Hr Hm Hz.
  assert (Hfull : (h * w)%nat <> 0%nat ->
                  count cv2_version rgb_image forest_mask (__init__ flag)
                  = (Ok (Result.mk (Some []) 0 (Some [])), __init__ flag)).
  { intros Hn. now apply (count_zero_mask_nonempty _ _ h w). }
  assert (Hempty : (h * w)%nat = 0%nat ->
                   count cv2_version rgb_image forest_mask (__init__ flag)
                   = (Ok (Result.mk None 0 None), __init__ flag)).
  { intros Hn. apply (count_empty_tile _ _ h w 3); [assumption | assumption | lia]. }
  split; [exact Hfull|]. split; [exact Hempty|].
  destruct (Nat.eq_dec (h * w) 0) as [E | N].
  - eexists. split; [apply Hempty, E | reflexivity].
  - eexists. split; [apply Hfull, N | reflexivity].
Qed.

End DetectorFacts.

(** ** The small contour analysis keeps the detector's contract *)

Lemma cvRound_Z (n : Z) : cvRound (inject_Z n / 1) = n.
Proof.
  assert (E : (inject_Z n / 1 == inject_Z n)%Q) by field.
  rewrite (cvRound_comp _ _ E).
  assert (n <= cvRound (inject_Z n)) by (apply cvRound_ge; lra).
  assert (cvRound (inject_Z n) <= n) by (apply cvRound_le; lra).
  lia.
Qed.

Lemma PixelContours_contract : ContourContract PixelContours.analysis.
Proof.
  intros img rc Hin _. cbn in Hin. unfold PixelContours.find in Hin.
  unfold centre_pixel. cbn [moments PixelContours.analysis m00 m10 m01 fst snd].
  rewrite !cvRound_Z. unfold at2.
  destruct (shape img) as [|h [|w [|? ?]]]; try contradiction.
  apply in_flat_map in Hin. destruct Hin as [i [Hi Hrc]].
  apply in_seq in Hi.
  destruct (nth_error (data img) i) as [v|] eqn:Ev; [|contradiction].
  destruct Hrc as [<- | []].
  cbn [fst snd]. destruct (pixel_row_col h w i) as [Hr Hc]; [lia|].
  destruct (Z.leb_spec 0 (Z.of_nat (i / w))),
           (Z.ltb_spec (Z.of_nat (i / w)) (Z.of_nat h)),
           (Z.leb_spec 0 (Z.of_nat (i mod w))),
           (Z.ltb_spec (Z.of_nat (i mod w)) (Z.of_nat w)); try lia.
  cbn [andb].
  replace (Z.to_nat (Z.of_nat (i / w) * Z.of_nat w + Z.of_nat (i mod w))) with i.
  - rewrite Ev. discriminate.
  - rewrite <- Nat2Z.inj_mul, <- Nat2Z.inj_add, Nat2Z.id.
    rewrite (Nat.div_mod_eq i w) at 1. lia.
Qed.

(** C1, witness: a tile of two by two pixels under an all-zero mask. *)
Lemma count_zero_mask_witness :
  let rgb := mkArr [2; 2; 3]%nat [10; 20; 30; 255; 255; 255; 0; 0; 0; 90; 80; 70] in
  let mask := mkArr [2; 2]%nat [0; 0; 0; 0] in
  (shape rgb = [2; 2; 3]%nat /\ shape mask = [2; 2]%nat
   /\ Forall (fun v => v = 0) (data mask) /\ (2 * 2)%nat <> 0%nat)
  /\ count (CA := PixelContours.analysis) "4.1.0" rgb mask (__init__ false)
     = (Ok (Result.mk (Some []) 0 (Some [])), __init__ false).
Proof.
  intros rgb mask.
  assert (Hz : Forall (fun v => v = 0) (data mask)) by (repeat constructor).
  split.
  - repeat split; try reflexivity; [exact Hz | discriminate].
  - apply (count_zero_mask (CC := PixelContours_contract) "4.1.0" rgb mask 2 2 false);
      [reflexivity | reflexivity | exact Hz | discriminate].
Defined.

(** C1, as the specification words it, fails: a tile without rows, with
    its mask (zero everywhere, there being nothing in it), passes the
    assertions, and [count] returns both lists as [None]. *)
Lemma count_zero_mask_empty_tile_None :
  let rgb := mkArr [0; 2; 3]%nat [] in
  let mask := mkArr [0; 2]%nat [] in
  np.wf rgb /\ np.wf mask
  /\ Forall (fun v => v = 0) (data mask)
  /\ count (CA := PixelContours.analysis) "4.1.0" rgb mask (__init__ false)
     = (Ok (Result.mk None 0 None), __init__ false)
  /\ Result.trees (Result.mk None 0 None) <> Some []
  /\ Result.keypoints (Result.mk None 0 None) <> Some [].
Proof.
  intros rgb mask. repeat split; try constructor; try reflexivity; discriminate.
Qed.

(** The detector does find blobs where there are dark pixels: a white tile
    of three by three pixels, all of it forest, is dark after the inversion,
    and [count] reports one key point, next to its centre pixel [(1, 1)]. *)
Example count_white_tile :
  fst (count (CA := PixelContours.analysis) "4.1.0"
         (mkArr [3; 3; 3]%nat (repeat 255 27)) (mkArr [3; 3]%nat (repeat 1 9))
         (__init__ false))
  = Ok (Result.mk (Some [(81 # 82, 81 # 82)%Q]) 1
          (Some [mkKeyPoint (81 # 82, 81 # 82)%Q (2 # 2)%Q])).
Proof. vm_compute. reflexivity. Qed.

(** ** The area filter *)

Lemma rejects_spec (v lo hi : Q) : rejects v lo hi = false <-> (lo <= v < hi)%Q.
Proof.
  unfold rejects, Qlt_bool. rewrite orb_false_iff, negb_false_iff, Qle_bool_iff.
  split.
  - intros [Hlo Hhi]. split; [assumption|].
    apply Qnot_le_lt. intros H. apply Qle_bool_iff in H. congruence.
  - intros [Hlo Hhi]. split; [assumption|].
    destruct (Qle_bool hi v) eqn:E; [|reflexivity].
    apply Qle_bool_iff in E. exfalso. apply (Qlt_not_le _ _ Hhi E).
Qed.

Lemma blob_params_area_passes (area : Q) :
  area_passes _get_blob_params area = true <-> (1 <= area < 10)%Q.
Proof.
  unfold area_passes. change (filterByArea _get_blob_params) with true.
  change (minArea _get_blob_params) with (inject_Z 1).
  change (maxArea _get_blob_params) with (inject_Z 10).
  cbn [andb]. rewrite negb_true_iff. apply rejects_spec.
Qed.

Lemma examine_area_passes {CA : ContourAnalysis} (p : Params) (binaryImage : ndarray)
      (c : contour) (ctr : Center) :
  examine p binaryImage c = Ok (Some ctr) -> area_passes p (m00 (moments c)) = true.
Proof.
  unfold examine. destruct (area_passes p (m00 (moments c))); [reflexivity|].
  cbn [negb]. discriminate.
Qed.

(** C6, as the specification words it, fails: a component whose area is
    exactly [maxArea] (10 with the module's settings) is rejected. *)
Lemma area_filter_rejects_maxArea :
  (maxArea _get_blob_params == 10)%Q
  /\ area_passes _get_blob_params (maxArea _get_blob_params) = false
  /\ area_passes _get_blob_params 10 = false.
Proof. repeat split. Qed.

(** C6, as the code has it. The area filter accepts exactly the half-open
    interval from [minArea] (included) to [maxArea] (excluded), [[1,10)]
    with the module's settings: area 1 passes, area 0 is rejected, area 9
    passes, areas 10 and 11 are rejected; and every centre the detector
    keeps comes from a contour whose area lies in that interval. *)
Theorem area_filter_half_open :
  filterByArea _get_blob_params = true
  /\ (minArea _get_blob_params == 1)%Q
  /\ (maxArea _get_blob_params == 10)%Q
  /\ (forall area : Q, area_passes _get_blob_params area = true <-> (1 <= area < 10)%Q)
  /\ area_passes _get_blob_params 1 = true
  /\ area_passes _get_blob_params 0 = false
  /\ area_passes _get_blob_params 9 = true
  /\ area_passes _get_blob_params 10 = false
  /\ area_passes _get_blob_params 11 = false
  /\ (forall (CA : ContourAnalysis) (binaryImage : ndarray) (c : contour) (ctr : Center),
        examine _get_blob_params binaryImage c = Ok (Some ctr) ->
        (1 <= m00 (moments c) < 10)%Q).
Proof.
  split; [reflexivity|]. split; [reflexivity|]. split; [reflexivity|].
  split; [exact blob_params_area_passes|].
  do 5 (split; [reflexivity|]).
  intros CA binaryImage c ctr H.
  apply blob_params_area_passes. eapply examine_area_passes, H.
Qed.

(** C6, witness: a dark pixel, of unit area, is kept. *)
Lemma area_filter_half_open_witness :
  let bin := mkArr [1; 1]%nat [0] in
  exists ctr,
    examine (CA := PixelContours.analysis) _get_blob_params bin (0%Z, 0%Z) = Ok (Some ctr)
    /\ (1 <= m00 (moments (ContourAnalysis := PixelContours.analysis) (0%Z, 0%Z)) < 10)%Q.
Proof.
  intros bin. eexists. split; [vm_compute; reflexivity|].
  destruct area_filter_half_open as [_ [_ [_ [_ [_ [_ [_ [_ [_ H]]]]]]]]].
  eapply (H PixelContours.analysis bin (0%Z, 0%Z)). vm_compute. reflexivity.
Defined.

(** ** From a key point to coordinates *)

Lemma invert_ok (T : rio.Affine) :
  ~ (rio.determinant T == 0)%Q ->
  exists inv, rio.invert T = Ok inv
    /\ forall x y : Q,
        (fst (rio.apply T (fst (rio.apply inv x y)) (snd (rio.apply inv x y))) == x)%Q
        /\ (snd (rio.apply T (fst (rio.apply inv x y)) (snd (rio.apply inv x y))) == y)%Q.
Proof.
  intros Hd. unfold rio.invert.
  destruct (Qeq_bool (rio.determinant T) 0) eqn:E.
  - apply Qeq_bool_iff in E. contradiction.
  - eexists. split; [reflexivity|]. intros x y.
    unfold rio.determinant in *. destruct T as [a b c d e f].
    cbn [rio.apply rio.a rio.b rio.c rio.d rio.e rio.f fst snd] in *.
    split; field; exact Hd.
Qed.

(** C7, as the specification words it, fails: for the north-up raster and
    the tile corner [P = (100, 200)], the key point [(0, 0)] comes back as
    [(100.25, 199.75)], the centre of the corner pixel, a quarter of a unit
    away from [P] in each coordinate; this is so with no shift ([eps = 0])
    and with the shift of one machine epsilon. *)
Lemma roundtrip_misses_corner :
  (exists g : Q * Q,
      keypoint_to_point 0 north_up 100 200 (mkKeyPoint (0, 0)%Q 1%Q) = Ok g
      /\ (fst g == 100 + (1 # 4))%Q /\ (snd g == 200 - (1 # 4))%Q)
  /\ ~ roundtrip_within (1 # 1000000) 0 north_up (100, 200)%Q
  /\ ~ roundtrip_within (1 # 1000000) (1 # 4503599627370496) north_up (100, 200)%Q.
Proof.
  split; [|split].
  - eexists. split; [reflexivity|]. split; vm_compute; reflexivity.
  - intros [g [Hg [Hx _]]]. vm_compute in Hg. injection Hg as <-.
    vm_compute in Hx. apply Hx. reflexivity.
  - intros [g [Hg [Hx _]]]. vm_compute in Hg. injection Hg as <-.
    vm_compute in Hx. apply Hx. reflexivity.
Qed.

(** C7, as the code has it. For every invertible affine transform and tile
    corner [P], the key point [(0, 0)] is mapped to the centre of the raster
    pixel that contains [P] (shifted by [eps]): if [(col, row)] is the
    fractional pixel position of the corner, the result is the transform of
    [(floor col + 1/2, floor row + 1/2)], which lies within half a pixel of
    [(col, row)] along each pixel axis. *)
Theorem keypoint_at_origin_gives_pixel_centre :
  forall (eps : Q) (T : rio.Affine) (x_min y_min size : Q),
    ~ (rio.determinant T == 0)%Q ->
    exists (inv : rio.Affine) (col row : Q) (g : Q * Q),
      rio.invert T = Ok inv
      /\ rio.apply inv (x_min + eps)%Q (y_min - eps)%Q = (col, row)
      /\ (fst (rio.apply T col row) == x_min + eps)%Q
      /\ (snd (rio.apply T col row) == y_min - eps)%Q
      /\ keypoint_to_point eps T x_min y_min (mkKeyPoint (0, 0)%Q size) = Ok g
      /\ (fst g == fst (rio.apply T (inject_Z (Qfloor col) + (1 # 2))
                                    (inject_Z (Qfloor row) + (1 # 2))))%Q
      /\ (snd g == snd (rio.apply T (inject_Z (Qfloor col) + (1 # 2))
                                    (inject_Z (Qfloor row) + (1 # 2))))%Q
      /\ (- (1 # 2) < inject_Z (Qfloor col) + (1 # 2) - col <= 1 # 2)%Q
      /\ (- (1 # 2) < inject_Z (Qfloor row) + (1 # 2) - row <= 1 # 2)%Q.
Proof.
  intros eps T x_min y_min size Hd.
  destruct (invert_ok T Hd) as [inv [Hinv Hrt]].
  destruct (rio.apply inv (x_min + eps)%Q (y_min - eps)%Q) as [col row] eqn:Ea.
  specialize (Hrt (x_min + eps)%Q (y_min - eps)%Q). rewrite Ea in Hrt.
  cbn [fst snd] in Hrt. destruct Hrt as [Hx Hy].
  exists inv, col, row. eexists.
  split; [exact Hinv|]. split; [exact Ea|].
  split; [exact Hx|]. split; [exact Hy|].
  split.
  - unfold keypoint_to_point, rio.rowcol. rewrite Hinv. cbn [rbind].
    rewrite Ea. cbn [fst snd pt]. reflexivity.
  - pose proof (Qfloor_le col) as Hc1. pose proof (Qlt_floor col) as Hc2.
    pose proof (Qfloor_le row) as Hr1. pose proof (Qlt_floor row) as Hr2.
    rewrite inject_Z_plus in Hc2, Hr2. change (inject_Z 1) with 1%Q in Hc2, Hr2.
    unfold rio.xy, rio.apply. cbn [fst snd].
    split; [ring|]. split; [ring|]. split; lra.
Qed.

(** C7, witness: the north-up raster. *)
Lemma keypoint_at_origin_gives_pixel_centre_witness :
  ~ (rio.determinant north_up == 0)%Q
  /\ exists (inv : rio.Affine) (col row : Q) (g : Q * Q),
      rio.invert north_up = Ok inv
      /\ rio.apply inv (100 + 0)%Q (200 - 0)%Q = (col, row)
      /\ (fst (rio.apply north_up col row) == 100 + 0)%Q
      /\ (snd (rio.apply north_up col row) == 200 - 0)%Q
      /\ keypoint_to_point 0 north_up 100 200 (mkKeyPoint (0, 0)%Q 1%Q) = Ok g
      /\ (fst g == fst (rio.apply north_up (inject_Z (Qfloor col) + (1 # 2))
                                           (inject_Z (Qfloor row) + (1 # 2))))%Q
      /\ (snd g == snd (rio.apply north_up (inject_Z (Qfloor col) + (1 # 2))
                                           (inject_Z (Qfloor row) + (1 # 2))))%Q
      /\ (- (1 # 2) < inject_Z (Qfloor col) + (1 # 2) - col <= 1 # 2)%Q
      /\ (- (1 # 2) < inject_Z (Qfloor row) + (1 # 2) - row <= 1 # 2)%Q.
Proof.
  assert (Hd : ~ (rio.determinant north_up == 0)%Q) by (vm_compute; discriminate).
  split; [exact Hd|].
  apply (keypoint_at_origin_gives_pixel_centre 0 north_up 100 200 1 Hd).
Defined.

(* ================================================================== *)
(** * Further properties of the module *)

(** ** What [count] returns *)

Lemma bitwise_and_Some (src1 src2 mask a : ndarray) :
  bitwise_and src1 src2 mask = Ok (Some a) ->
  shape a = shape src1 /\ size_of (shape a) <> 0%nat.
Proof.
  unfold bitwise_and. destruct (shape src1) as [|h [|w [|c [|? ?]]]] eqn:Es; try discriminate.
  destruct (_ && _); [|discriminate]. unfold pyopencv_from. cbn [shape].
  destruct (Nat.eqb_spec (size_of [h; w; c]) 0) as [E | N]; [discriminate|].
  intros H. injection H as <-. cbn [shape]. auto.
Qed.

Lemma bitwise_not_Some (a : ndarray) :
  size_of (shape a) <> 0%nat ->
  bitwise_not (Some a)
  = Ok (Some (mkArr (shape a) (map (fun v => Z.land (Z.lnot v) 255) (data a)))).
Proof.
  intros Hn. unfold bitwise_not, pyopencv_from. cbn [shape].
  destruct (Nat.eqb_spec (size_of (shape a)) 0); [contradiction | reflexivity].
Qed.

Lemma mbind_lift_ok {A B : Type} (r : result A) (k : A -> M B) (self : TreeCounter) (x : A) :
  r = Ok x -> mbind (lift r) k self = k x self.
Proof. intros ->. reflexivity. Qed.

Section CountResult.
Context {CA : ContourAnalysis}.
Variable cv2_version : string.

Lemma preprocess_Ok_channels (img m : ndarray) (self : TreeCounter) (h w c : nat) :
  shape img = [h; w; c] ->
  fst (_preprocess_forest_img img self) = Ok m ->
  (h * w)%nat <> 0%nat /\ (c = 3%nat \/ c = 4%nat).
Proof.
  intros Hs. unfold _preprocess_forest_img. unfold mbind at 1, lift at 1.
  destruct (cvtColor img COLOR_BGR2GRAY) as [gray | e |] eqn:Ecv;
    cbn [fst]; try discriminate.
  intros _. unfold cvtColor in Ecv. rewrite Hs in Ecv.
  destruct (Nat.eqb_spec (h * w) 0); [discriminate|].
  destruct (Nat.eqb_spec c 3); [auto|]. destruct (Nat.eqb_spec c 4); [auto|].
  discriminate.
Qed.

Lemma bitwise_and_None (src1 src2 mask : ndarray) :
  bitwise_and src1 src2 mask = Ok None -> size_of (shape src1) = 0%nat.
Proof.
  unfold bitwise_and. destruct (shape src1) as [|h [|w [|c [|? ?]]]]; try discriminate.
  destruct (_ && _); [|discriminate]. unfold pyopencv_from. cbn [shape].
  destruct (Nat.eqb_spec (size_of [h; w; c]) 0); [auto | discriminate].
Qed.

(** What [count] can return, by the size of the tile. *)
Lemma count_Ok_cases (rgb_image forest_mask : ndarray) (self : TreeCounter) (r : Result.t) :
  fst (count cv2_version rgb_image forest_mask self) = Ok r ->
  exists h w c : nat,
    shape rgb_image = [h; w; c] /\ shape forest_mask = [h; w]
    /\ (((h * w * c)%nat = 0%nat /\ r = Result.mk None 0 None)
        \/ ((h * w * c)%nat <> 0%nat /\ (c = 3%nat \/ c = 4%nat)
            /\ exists keypoints : list KeyPoint,
                Result.keypoints r = Some keypoints
                /\ Result.trees r = Some (map pt keypoints)
                /\ Result.count r = Z.of_nat (length keypoints))).
Proof.
  unfold count. unfold mbind at 1.
  rewrite count_asserts_pure. unfold py_assert, rbind.
  destruct (Nat.eqb_spec 3 (length (shape rgb_image))) as [E3 | _];
    cbn [fst]; [|discriminate].
  destruct (Nat.eqb_spec 2 (length (shape forest_mask))) as [E2 | _];
    cbn [fst]; [|discriminate].
  destruct (shape_eqb (firstn 2 (shape rgb_image)) (shape forest_mask)) eqn:Es;
    cbn [fst]; [|discriminate].
  apply shape_eqb_eq in Es.
  destruct (shape rgb_image) as [|h [|w [|c [|? ?]]]] eqn:Hr; try discriminate E3.
  cbn [firstn] in Es.
  unfold mbind at 1, lift at 1.
  destruct (bitwise_and rgb_image rgb_image forest_mask) as [[a|] | e |] eqn:Ea;
    cbn [fst]; try discriminate.
  - destruct (bitwise_and_Some _ _ _ _ Ea) as [Hsa Hn]. rewrite Hr in Hsa.
    unfold mbind at 1, lift at 1. rewrite (bitwise_not_Some a Hn).
    unfold mbind at 1.
    destruct (_preprocess_forest_img _ self) as [[m | e |] s1] eqn:Ep;
      cbn [fst]; try discriminate.
    destruct (preprocess_Ok_channels
                (mkArr (shape a) (map (fun v => Z.land (Z.lnot v) 255) (data a)))
                m self h w c Hsa) as [Hhw Hc].
    { now rewrite Ep. }
    unfold mbind at 1, get_attr.
    unfold mbind, _detect_blobs, lift, mret.
    destruct (detect _ m) as [kps | e |]; cbn [fst]; try discriminate.
    intros H. injection H as <-. exists h, w, c.
    split; [reflexivity|]. split; [now symmetry|]. right.
    rewrite Hsa, size_of_3 in Hn. split; [exact Hn|]. split; [exact Hc|].
    exists kps. cbn [Result.keypoints Result.trees Result.count app].
    rewrite length_map. auto.
  - apply bitwise_and_None in Ea. rewrite Hr, size_of_3 in Ea.
    unfold mbind at 1, lift at 1. cbn [bitwise_not].
    unfold mret. cbn [fst]. intros H. injection H as <-.
    exists h, w, c. split; [reflexivity|]. split; [now symmetry|]. left. auto.
Qed.

(** In either case the count is the number of points written for the tile. *)
Lemma count_Ok_inv (rgb_image forest_mask : ndarray) (self : TreeCounter) (r : Result.t) :
  fst (count cv2_version rgb_image forest_mask self) = Ok r ->
  Result.count r
  = Z.of_nat (length (match Result.keypoints r with Some kps => kps | None => [] end)).
Proof.
  intros H. destruct (count_Ok_cases _ _ _ _ H) as [h [w [c [_ [_ [[_ ->] | [_ [_ Hk]]]]]]]].
  - reflexivity.
  - destruct Hk as [kps [-> [_ ->]]]. reflexivity.
Qed.


(** X2. An array that passes the assertions but has neither three nor
    four channels is refused by the colour conversion: [count] raises
    [cv2.error], not [AssertionError], and leaves the counter as it was. *)
Theorem count_wrong_channels_cv2_error :
  forall (rgb_image forest_mask : ndarray) (h w c : nat) (self : TreeCounter),
    shape rgb_image = [h; w; c] -> shape forest_mask = [h; w] ->
    (h * w * c)%nat <> 0%nat -> c <> 3%nat -> c <> 4%nat ->
    raises (fst (count cv2_version rgb_image forest_mask self)) "cv2.error"
    /\ snd (count cv2_version rgb_image forest_mask self) = self.
Proof.
  intros rgb_image forest_mask h w c self Hr Hm Hn H3 H4.
  assert (Ha : exists a, bitwise_and rgb_image rgb_image forest_mask = Ok (Some a)
                         /\ shape a = [h; w; c]).
  { unfold bitwise_and. rewrite Hr, Hm, !shape_eqb_refl. cbn [andb].
    unfold pyopencv_from. cbn [shape]. rewrite size_of_3.
    destruct (Nat.eqb_spec (h * w * c) 0); [contradiction|].
    eexists. split; reflexivity. }
  destruct Ha as [a [Ea Hsa]].
  assert (Hp : _preprocess_forest_img
                 (mkArr (shape a) (map (fun v => Z.land (Z.lnot v) 255) (data a))) self
               = (Raise (error "cvtColor: invalid number of channels in input image"), self)).
  { unfold _preprocess_forest_img. apply mbind_raise. unfold lift, cvtColor.
    cbn [shape]. rewrite Hsa.
    destruct (Nat.eqb_spec (h * w) 0) as [E | _]; [rewrite E in Hn; lia|].
    destruct (Nat.eqb_spec c 3); [contradiction|].
    destruct (Nat.eqb_spec c 4); [contradiction|]. reflexivity. }
  assert (Hc : count cv2_version rgb_image forest_mask self
               = (Raise (error "cvtColor: invalid number of channels in input image"), self)).
  { unfold count.
    rewrite (mbind_ok _ _ _ _ _ (count_asserts_pass _ _ h w c _ Hr Hm)).
    rewrite (mbind_lift_ok _ _ _ _ Ea).
    rewrite (mbind_lift_ok _ _ _ _
               (bitwise_not_Some a ltac:(rewrite Hsa, size_of_3; assumption))).
    apply mbind_raise, Hp. }
  rewrite Hc. cbn [fst snd]. split; [eexists|]; reflexivity.
Qed.

End CountResult.


(** X2, witness: a tile of five channels. *)
Lemma count_wrong_channels_cv2_error_witness :
  let rgb := mkArr [1; 1; 5]%nat [1; 2; 3; 4; 5] in
  let mask := mkArr [1; 1]%nat [1] in
  (shape rgb = [1; 1; 5]%nat /\ shape mask = [1; 1]%nat /\ (1 * 1 * 5)%nat <> 0%nat
   /\ 5%nat <> 3%nat /\ 5%nat <> 4%nat)
  /\ raises (fst (count (CA := PixelContours.analysis) "4.1.0" rgb mask (__init__ false)))
            "cv2.error"
  /\ snd (count (CA := PixelContours.analysis) "4.1.0" rgb mask (__init__ false))
     = __init__ false.
Proof.
  intros rgb mask. split.
  - repeat split; discriminate.
  - apply (count_wrong_channels_cv2_error (CA := PixelContours.analysis) "4.1.0"
             rgb mask 1 1 5 (__init__ false)); try reflexivity; discriminate.
Defined.

(** ** [_apply_brightness_contrast] at its edges *)

Lemma darken_px (b v : Z) :
  saturate_cast_uchar (inject_Z v * (inject_Z (255 + b - 0) / 255) + inject_Z v * 0 + inject_Z 0)%Q
  = darken b v.
Proof.
  apply saturate_comp. unfold Zminus. rewrite !inject_Z_plus, inject_Z_opp.
  change (inject_Z 255) with 255%Q. change (inject_Z 0) with 0%Q. field.
Qed.

Lemma darken_range (b v : Z) :
  -255 <= b < 0 -> 0 <= v <= 255 -> 0 <= darken b v <= 255 + b.
Proof.
  intros [Hb0 Hb1] [Hv0 Hv1]. unfold darken.
  assert (Qb0 : (inject_Z (-255) <= inject_Z b)%Q) by (now rewrite <- Zle_Qle).
  assert (Qb1 : (inject_Z b <= inject_Z 0)%Q) by (rewrite <- Zle_Qle; lia).
  assert (Qv0 : (inject_Z 0 <= inject_Z v)%Q) by (now rewrite <- Zle_Qle).
  assert (Qv1 : (inject_Z v <= inject_Z 255)%Q) by (now rewrite <- Zle_Qle).
  change (inject_Z 0) with 0%Q in *. change (inject_Z 255) with 255%Q in *.
  change (inject_Z (-255)) with (-255)%Q in *.
  assert (Hq : (inject_Z (255 + b) == 255 + inject_Z b)%Q).
  { rewrite inject_Z_plus. reflexivity. }
  set (ib := inject_Z b) in *. set (iv := inject_Z v) in *.
  assert (Hp : (0 <= iv * (255 + ib))%Q) by (apply Qmult_le_0_compat; lra).
  assert (Hr : (0 <= (255 - iv) * (255 + ib))%Q) by (apply Qmult_le_0_compat; lra).
  assert (Hr' : ((255 - iv) * (255 + ib) == 255 * (255 + ib) - iv * (255 + ib))%Q) by ring.
  rewrite Hr' in Hr.
  assert (E : (iv * (255 + ib) / 255 == (1 # 255) * (iv * (255 + ib)))%Q) by field.
  rewrite (saturate_comp _ _ E). split.
  - apply saturate_range.
  - apply saturate_le; [lia|]. rewrite Hq. fold ib. lra.
Qed.

Lemma darken_ends (b : Z) :
  -255 <= b < 0 -> darken b 0 = 0 /\ darken b 255 = 255 + b.
Proof.
  intros Hb. unfold darken. split.
  - transitivity (saturate_cast_uchar (inject_Z 0)); [|apply saturate_Z; lia].
    apply saturate_comp. change (inject_Z 0) with 0%Q. field.
  - transitivity (saturate_cast_uchar (inject_Z (255 + b))); [|apply saturate_Z; lia].
    apply saturate_comp. rewrite inject_Z_plus. change (inject_Z 255) with 255%Q. field.
Qed.

(** X4. A negative brightness darkens: for [-255 <= b < 0] and no contrast
    the stage is the linear map of [[0,255]] onto [[0,255+b]], so that 0
    stays 0, 255 becomes [255+b], and no byte leaves [[0,255+b]]. *)
Theorem apply_negative_brightness :
  forall (input_img : ndarray) (brightness : Z) (self : TreeCounter),
    -255 <= brightness < 0 ->
    _apply_brightness_contrast input_img brightness 0 self
    = (Ok (mkArr (shape input_img) (map (darken brightness) (data input_img))), self)
    /\ (forall v, 0 <= v <= 255 -> 0 <= darken brightness v <= 255 + brightness)
    /\ darken brightness 0 = 0
    /\ darken brightness 255 = 255 + brightness.
Proof.
  intros input_img brightness self Hb. split; [|split].
  - unfold _apply_brightness_contrast.
    assert (Eb : (brightness =? 0) = false) by (apply Z.eqb_neq; lia).
    assert (Eg : (brightness >? 0) = false).
    { destruct (Z.gtb_spec brightness 0); [lia | reflexivity]. }
    rewrite Eb, Eg. cbn [Z.eqb negb].
    unfold mbind, mret, lift. rewrite addWeighted_diag. do 3 f_equal.
    apply map_ext. intros v. apply darken_px.
  - intros v Hv. now apply darken_range.
  - now apply darken_ends.
Qed.

(** X4, witness. *)
Lemma apply_negative_brightness_witness :
  let img := mkArr [1; 3]%nat [0; 100; 255] in
  -255 <= -55 < 0
  /\ _apply_brightness_contrast img (-55) 0 (__init__ false)
     = (Ok (mkArr [1; 3]%nat [0; 78; 200]), __init__ false).
Proof.
  intros img. assert (H : -255 <= -55 < 0) by lia. split; [exact H|].
  destruct (apply_negative_brightness img (-55) (__init__ false) H) as [E _].
  rewrite E. vm_compute. reflexivity.
Defined.

(** ** The preprocessing as a threshold on the grey level *)

Lemma brightness_64_cut (v : Z) :
  (95 <= v -> 135 <= spec_brightness 64 v) /\ (v <= 94 -> spec_brightness 64 v <= 134).
Proof.
  unfold spec_brightness. split; intros Hv.
  - apply saturate_ge; [lia|].
    assert (Hq : (inject_Z 95 <= inject_Z v)%Q) by (now rewrite <- Zle_Qle).
    change (inject_Z 95) with 95%Q in Hq. change (inject_Z 64) with 64%Q.
    change (inject_Z 135) with 135%Q.
    assert (E : (64 + inject_Z v * (255 - 64) / 255 == 64 + (191 # 255) * inject_Z v)%Q)
      by field.
    rewrite E. lra.
  - apply saturate_le; [lia|].
    assert (Hq : (inject_Z v <= inject_Z 94)%Q) by (now rewrite <- Zle_Qle).
    change (inject_Z 94) with 94%Q in Hq. change (inject_Z 64) with 64%Q.
    change (inject_Z 134) with 134%Q.
    assert (E : (64 + inject_Z v * (255 - 64) / 255 == 64 + (191 # 255) * inject_Z v)%Q)
      by field.
    rewrite E. lra.
Qed.

Lemma contrast_90_cut (u : Z) :
  (135 <= u -> 171 <= spec_contrast 90 u) /\ (u <= 134 -> spec_contrast 90 u <= 165).
Proof.
  unfold spec_contrast. split; intros Hu.
  - apply saturate_ge; [lia|]. rewrite spec_gain_90.
    assert (Hq : (inject_Z 135 <= inject_Z u)%Q) by (now rewrite <- Zle_Qle).
    change (inject_Z 135) with 135%Q in Hq. change (inject_Z 171) with 171%Q. lra.
  - apply saturate_le; [lia|]. rewrite spec_gain_90.
    assert (Hq : (inject_Z u <= inject_Z 134)%Q) by (now rewrite <- Zle_Qle).
    change (inject_Z 134) with 134%Q in Hq. change (inject_Z 165) with 165%Q. lra.
Qed.

Lemma stages_are_grey_cut (g : Z) :
  threshold_px 170 255 THRESH_BINARY (spec_contrast 90 (spec_brightness 64 g)) = grey_cut g.
Proof.
  unfold threshold_px, grey_cut.
  destruct (brightness_64_cut g) as [Hhi Hlo].
  destruct (contrast_90_cut (spec_brightness 64 g)) as [Chi Clo].
  destruct (Z.leb_spec 95 g) as [Hg | Hg].
  - specialize (Chi (Hhi Hg)).
    destruct (Z.gtb_spec (spec_contrast 90 (spec_brightness 64 g)) 170); [reflexivity | lia].
  - assert (Hg' : g <= 94) by lia. specialize (Clo (Hlo Hg')).
    destruct (Z.gtb_spec (spec_contrast 90 (spec_brightness 64 g)) 170); [lia | reflexivity].
Qed.

Lemma preprocess_grey_cut (img gray : ndarray) (self : TreeCounter) :
  cvtColor img COLOR_BGR2GRAY = Ok gray ->
  _preprocess_forest_img img self
  = ((mask_r <- morphologyEx (mkArr (shape gray) (map grey_cut (data gray)))
                   MORPH_OPEN (np.ones [3; 3]%nat) ;;
      Ok (np.uint8 mask_r))%result, self).
Proof.
  intros Hg. destruct (cvtColor_shape img gray Hg) as [h [w [Hs [Hn Hl]]]].
  rewrite (preprocess_stages img gray self Hg). unfold binarize_and_open.
  rewrite (threshold_ok _ h w) by (cbn [shape]; assumption).
  cbn [rbind snd data]. rewrite map_map, Hs. do 4 f_equal.
  apply map_ext, stages_are_grey_cut.
Qed.

(** X5. The brightness stage, the contrast stage and the binarization of
    [_preprocess_forest_img] together are one threshold on the grey image:
    a pixel goes to 255 exactly when its grey level is 95 or more, whatever
    the image; the opening is applied to that mask. *)
Theorem preprocess_is_threshold_at_95 :
  forall (img gray : ndarray) (self : TreeCounter),
    cvtColor img COLOR_BGR2GRAY = Ok gray ->
    _preprocess_forest_img img self
    = ((mask_r <- morphologyEx (mkArr (shape gray) (map grey_cut (data gray)))
                     MORPH_OPEN (np.ones [3; 3]%nat) ;;
        Ok (np.uint8 mask_r))%result, self)
    /\ (forall g, 95 <= g -> grey_cut g = 255)
    /\ (forall g, g < 95 -> grey_cut g = 0).
Proof.
  intros img gray self Hg. split; [now apply preprocess_grey_cut|].
  split; intros g Hv; unfold grey_cut; destruct (Z.leb_spec 95 g); auto; lia.
Qed.

(** X5, witness. *)
Lemma preprocess_is_threshold_at_95_witness :
  let img := mkArr [1; 2; 3]%nat [94; 94; 94; 95; 95; 95] in
  let gray := mkArr [1; 2]%nat [94; 95] in
  cvtColor img COLOR_BGR2GRAY = Ok gray
  /\ _preprocess_forest_img img (__init__ false)
     = ((mask_r <- morphologyEx (mkArr (shape gray) (map grey_cut (data gray)))
                      MORPH_OPEN (np.ones [3; 3]%nat) ;;
         Ok (np.uint8 mask_r))%result, __init__ false).
Proof.
  intros img gray.
  assert (H : cvtColor img COLOR_BGR2GRAY = Ok gray) by reflexivity.
  split; [exact H|].
  apply (preprocess_is_threshold_at_95 img gray (__init__ false) H).
Defined.

(** ** The opening never adds foreground *)

Lemma at2_range (a : ndarray) (h w : nat) (r c v : Z) :
  shape a = [h; w] -> at2 a r c = Some v ->
  0 <= r < Z.of_nat h /\ 0 <= c < Z.of_nat w.
Proof.
  intros Hs. unfold at2. rewrite Hs.
  destruct (Z.leb_spec 0 r), (Z.ltb_spec r (Z.of_nat h)),
           (Z.leb_spec 0 c), (Z.ltb_spec c (Z.of_nat w)); cbn [andb]; try discriminate.
  intros _. lia.
Qed.

Lemma pixel_index (h w : nat) (r c : Z) :
  0 <= r < Z.of_nat h -> 0 <= c < Z.of_nat w ->
  let i := Z.to_nat (r * Z.of_nat w + c) in
  (i < h * w)%nat /\ Z.of_nat (i / w) = r /\ Z.of_nat (i mod w) = c.
Proof.
  intros Hr Hc i.
  assert (Hi : i = (Z.to_nat r * w + Z.to_nat c)%nat) by (unfold i; nia).
  assert (Hw : (Z.to_nat c < w)%nat) by lia.
  split; [nia|]. rewrite Hi. split.
  - rewrite Nat.div_add_l, (Nat.div_small _ _ Hw) by lia. lia.
  - replace (Z.to_nat r * w + Z.to_nat c)%nat with (Z.to_nat c + Z.to_nat r * w)%nat by lia.
    rewrite Nat.Div0.mod_add, (Nat.mod_small _ _ Hw). lia.
Qed.

Lemma at2_morph_map (pick : list Z -> Z) (src kernel : ndarray) (h w : nat) (r c : Z) :
  shape src = [h; w] -> 0 <= r < Z.of_nat h -> 0 <= c < Z.of_nat w ->
  at2 (morph_map pick src kernel) r c
  = Some (pick (window src (kernel_offsets kernel) r c)).
Proof.
  intros Hs Hr Hc. unfold at2. rewrite morph_map_shape, Hs.
  destruct (Z.leb_spec 0 r), (Z.ltb_spec r (Z.of_nat h)),
           (Z.leb_spec 0 c), (Z.ltb_spec c (Z.of_nat w)); try lia.
  cbn [andb]. unfold morph_map. rewrite Hs. cbn [data].
  destruct (pixel_index h w r c Hr Hc) as [Hi [Er Ec]].
  rewrite nth_error_map, nth_error_seq.
  destruct (Nat.ltb_spec (Z.to_nat (r * Z.of_nat w + c)) (h * w)); [|lia].
  cbn [option_map Nat.add]. now rewrite Er, Ec.
Qed.

Lemma at2_in_range (a : ndarray) (h w : nat) (r c : Z) :
  shape a = [h; w] -> length (data a) = (h * w)%nat ->
  0 <= r < Z.of_nat h -> 0 <= c < Z.of_nat w ->
  exists v, at2 a r c = Some v.
Proof.
  intros Hs Hl Hr Hc. unfold at2. rewrite Hs.
  destruct (Z.leb_spec 0 r), (Z.ltb_spec r (Z.of_nat h)),
           (Z.leb_spec 0 c), (Z.ltb_spec c (Z.of_nat w)); try lia.
  cbn [andb]. destruct (pixel_index h w r c Hr Hc) as [Hi _].
  destruct (nth_error (data a) _) eqn:E; [eauto|].
  apply nth_error_None in E. lia.
Qed.

Lemma fold_min_le (top v : Z) (l : list Z) : In v l -> fold_right Z.min top l <= v.
Proof.
  induction l as [|x l IH]; [contradiction|]. cbn. intros [-> | H]; [lia|].
  specialize (IH H). lia.
Qed.

Lemma fold_max_le (v : Z) (l : list Z) :
  0 <= v -> (forall x, In x l -> x <= v) -> fold_right Z.max 0 l <= v.
Proof.
  intros Hv. induction l as [|x l IH]; intros H; cbn; [assumption|].
  assert (x <= v) by (apply H; now left).
  assert (fold_right Z.max 0 l <= v) by (apply IH; intros y Hy; apply H; now right).
  lia.
Qed.

Lemma window_elim (src : ndarray) (offs : list (Z * Z)) (r c x : Z) :
  In x (window src offs r c) ->
  exists d, In d offs /\ at2 src (r + fst d) (c + snd d) = Some x.
Proof.
  unfold window. rewrite in_flat_map. intros [d [Hd H]].
  destruct (at2 src _ _) as [v|] eqn:E; [|contradiction].
  destruct H as [<- | []]. eauto.
Qed.

Lemma window_intro (src : ndarray) (offs : list (Z * Z)) (r c v : Z) (d : Z * Z) :
  In d offs -> at2 src (r + fst d) (c + snd d) = Some v -> In v (window src offs r c).
Proof.
  intros Hd Hv. unfold window. apply in_flat_map. exists d. split; [assumption|].
  rewrite Hv. now left.
Qed.

(** An opening by a symmetric element is anti-extensive. *)
Lemma opening_below (src kernel : ndarray) (h w : nat) (r c v : Z) :
  shape src = [h; w] -> symmetric_offsets (kernel_offsets kernel) ->
  at2 src r c = Some v -> 0 <= v ->
  exists v', at2 (dilate (erode src kernel) kernel) r c = Some v' /\ v' <= v.
Proof.
  intros Hs Hsym Hv Hv0.
  destruct (at2_range src h w r c v Hs Hv) as [Hr Hc].
  assert (Hes : shape (erode src kernel) = [h; w])
    by (unfold erode; now rewrite morph_map_shape).
  unfold dilate. rewrite (at2_morph_map _ _ _ h w) by assumption.
  eexists. split; [reflexivity|].
  apply fold_max_le; [assumption|]. intros x Hx.
  apply window_elim in Hx. destruct Hx as [d [Hd Hx]].
  destruct (at2_range _ h w _ _ _ Hes Hx) as [Hr' Hc'].
  unfold erode in Hx. rewrite (at2_morph_map _ _ _ h w) in Hx by assumption.
  injection Hx as <-. apply fold_min_le.
  apply (window_intro _ _ _ _ _ (- fst d, - snd d)); [now apply Hsym|].
  cbn [fst snd]. replace (r + fst d + - fst d) with r by lia.
  replace (c + snd d + - snd d) with c by lia. exact Hv.
Qed.

Lemma fold_max_nonneg (l : list Z) : 0 <= fold_right Z.max 0 l.
Proof. induction l as [|x l IH]; cbn [fold_right]; lia. Qed.

Lemma at2_dilate_nonneg (src kernel : ndarray) (h w : nat) (r c v : Z) :
  shape src = [h; w] -> at2 (dilate src kernel) r c = Some v -> 0 <= v.
Proof.
  intros Hs Hv.
  assert (Hd : shape (dilate src kernel) = [h; w])
    by (unfold dilate; now rewrite morph_map_shape).
  destruct (at2_range _ h w r c v Hd Hv) as [Hr Hc].
  unfold dilate in Hv. rewrite (at2_morph_map _ _ _ h w r c Hs Hr Hc) in Hv.
  injection Hv as <-. apply fold_max_nonneg.
Qed.

Lemma ones_3x3_symmetric : symmetric_offsets (kernel_offsets (np.ones [3; 3]%nat)).
Proof.
  intros d Hd. vm_compute in Hd.
  repeat (destruct Hd as [<- | Hd]; [vm_compute; auto 10|]). contradiction.
Qed.

Lemma at2_uint8 (a : ndarray) (r c : Z) :
  at2 (np.uint8 a) r c = option_map (fun v => v mod 256) (at2 a r c).
Proof.
  unfold at2, np.uint8. cbn [shape data].
  destruct (shape a) as [|h [|w [|? ?]]]; try reflexivity.
  destruct (_ && _); [|reflexivity]. apply nth_error_map.
Qed.

(** X6. The opening never adds foreground: wherever the mask returned by
    [_preprocess_forest_img] is 255, the grey level of the image at that
    pixel is 95 or more. *)
Theorem preprocess_foreground_is_bright :
  forall (img gray mask_r : ndarray) (self : TreeCounter) (r c : Z),
    cvtColor img COLOR_BGR2GRAY = Ok gray ->
    fst (_preprocess_forest_img img self) = Ok mask_r ->
    at2 mask_r r c = Some 255 ->
    exists g, at2 gray r c = Some g /\ 95 <= g.
Proof.
  intros img gray mask_r self r c Hg Hp Hm.
  destruct (cvtColor_shape img gray Hg) as [h [w [Hs [Hn Hl]]]].
  rewrite (preprocess_grey_cut img gray self Hg) in Hp. cbn [fst] in Hp.
  unfold morphologyEx in Hp. cbn [shape] in Hp. rewrite Hs in Hp.
  destruct (Nat.eqb_spec (h * w) 0); [contradiction|].
  cbn [rbind] in Hp. injection Hp as <-.
  set (mask0 := mkArr [h; w] (map grey_cut (data gray))) in *.
  assert (Hs0 : shape mask0 = [h; w]) by reflexivity.
  assert (Hopen : shape (dilate (erode mask0 (np.ones [3; 3]%nat)) (np.ones [3; 3]%nat))
                  = [h; w]).
  { unfold dilate, erode. now rewrite !morph_map_shape. }
  rewrite at2_uint8 in Hm.
  destruct (at2 (dilate _ _) r c) as [v'|] eqn:Ev'; [|discriminate].
  destruct (at2_range _ h w r c v' Hopen Ev') as [Hr Hc].
  destruct (at2_in_range gray h w r c Hs Hl Hr Hc) as [g Eg].
  exists g. split; [exact Eg|].
  assert (E0 : at2 mask0 r c = Some (grey_cut g)).
  { unfold at2 in Eg |- *. rewrite Hs in Eg. cbn [shape mask0 data].
    destruct (_ && _); [|discriminate]. rewrite nth_error_map, Eg. reflexivity. }
  assert (H0 : 0 <= grey_cut g) by (unfold grey_cut; destruct (95 <=? g); lia).
  destruct (opening_below mask0 (np.ones [3; 3]%nat) h w r c (grey_cut g) Hs0
              ones_3x3_symmetric E0 H0) as [v'' [Ev'' Hle]].
  rewrite Ev' in Ev''. injection Ev'' as <-.
  cbn [option_map] in Hm. injection Hm as Hm.
  unfold grey_cut in Hle, H0. destruct (Z.leb_spec 95 g) as [Hg95 | Hg95]; [assumption|].
  exfalso.
  assert (Hv0 : 0 <= v').
  { apply (at2_dilate_nonneg (erode mask0 (np.ones [3; 3]%nat)) (np.ones [3; 3]%nat)
             h w r c); [|exact Ev'].
    unfold erode. now rewrite morph_map_shape. }
  assert (v' = 0) by lia. subst v'. discriminate Hm.
Qed.

(** X6, witness: a grey tile of three by three pixels. *)
Lemma preprocess_foreground_is_bright_witness :
  let img := mkArr [3; 3; 3]%nat (repeat 200 27) in
  let gray := mkArr [3; 3]%nat (repeat 200 9) in
  let mask_r := mkArr [3; 3]%nat (repeat 255 9) in
  (cvtColor img COLOR_BGR2GRAY = Ok gray
   /\ fst (_preprocess_forest_img img (__init__ false)) = Ok mask_r
   /\ at2 mask_r 1 1 = Some 255)
  /\ exists g, at2 gray 1 1 = Some g /\ 95 <= g.
Proof.
  intros img gray mask_r.
  assert (H1 : cvtColor img COLOR_BGR2GRAY = Ok gray) by reflexivity.
  assert (H2 : fst (_preprocess_forest_img img (__init__ false)) = Ok mask_r)
    by (vm_compute; reflexivity).
  assert (H3 : at2 mask_r 1 1 = Some 255) by reflexivity.
  split; [auto|].
  exact (preprocess_foreground_is_bright img gray mask_r (__init__ false) 1 1 H1 H2 H3).
Defined.

(** ** The mask *)





(** ** More on the way from a key point to coordinates *)

Lemma keypoint_to_point_Ok (eps : Q) (T inv : rio.Affine) (x_min y_min : Q)
      (keypoint : KeyPoint) :
  rio.invert T = Ok inv ->
  keypoint_to_point eps T x_min y_min keypoint
  = Ok (rio.xy T
          (inject_Z (Qfloor (snd (rio.apply inv (x_min + eps) (y_min - eps))))
           + snd (pt keypoint))%Q
          (inject_Z (Qfloor (fst (rio.apply inv (x_min + eps) (y_min - eps))))
           + fst (pt keypoint))%Q).
Proof.
  intros Hinv. unfold keypoint_to_point, rio.rowcol. rewrite Hinv. reflexivity.
Qed.

(** X8. Within one tile the mapping is the raster's transform up to a
    shift: for an invertible transform the result for a key point [(x, y)]
    differs from the result for the key point [(0, 0)] by the linear part
    of the transform applied to [(x, y)], whatever the tile corner. *)
Theorem keypoint_offsets_are_linear :
  forall (eps : Q) (T : rio.Affine) (x_min y_min : Q) (keypoint : KeyPoint) (size0 : Q),
    ~ (rio.determinant T == 0)%Q ->
    exists g0 g : Q * Q,
      keypoint_to_point eps T x_min y_min (mkKeyPoint (0, 0)%Q size0) = Ok g0
      /\ keypoint_to_point eps T x_min y_min keypoint = Ok g
      /\ (fst g - fst g0
          == rio.a T * fst (pt keypoint) + rio.b T * snd (pt keypoint))%Q
      /\ (snd g - snd g0
          == rio.d T * fst (pt keypoint) + rio.e T * snd (pt keypoint))%Q.
Proof.
  intros eps T x_min y_min keypoint size0 Hd.
  destruct (invert_ok T Hd) as [inv [Hinv _]].
  eexists. eexists.
  split; [apply (keypoint_to_point_Ok _ _ _ _ _ _ Hinv)|].
  split; [apply (keypoint_to_point_Ok _ _ _ _ _ _ Hinv)|].
  unfold rio.xy, rio.apply. cbn [fst snd pt]. split; ring.
Qed.

(** X8, witness. *)
Lemma keypoint_offsets_are_linear_witness :
  ~ (rio.determinant north_up == 0)%Q
  /\ exists g0 g : Q * Q,
      keypoint_to_point 0 north_up 100 200 (mkKeyPoint (0, 0)%Q 1%Q) = Ok g0
      /\ keypoint_to_point 0 north_up 100 200 (mkKeyPoint (3, 5)%Q 1%Q) = Ok g
      /\ (fst g - fst g0 == rio.a north_up * 3 + rio.b north_up * 5)%Q
      /\ (snd g - snd g0 == rio.d north_up * 3 + rio.e north_up * 5)%Q.
Proof.
  assert (Hd : ~ (rio.determinant north_up == 0)%Q) by (vm_compute; discriminate).
  split; [exact Hd|].
  exact (keypoint_offsets_are_linear 0 north_up 100 200 (mkKeyPoint (3, 5)%Q 1%Q) 1 Hd).
Defined.

(** X9. The mapping fails exactly on degenerate transforms: when the
    determinant is zero every key point raises
    [TransformNotInvertibleError], and otherwise every key point is mapped. *)
Theorem keypoint_to_point_fails_iff_degenerate :
  forall (eps : Q) (T : rio.Affine) (x_min y_min : Q) (keypoint : KeyPoint),
    ((rio.determinant T == 0)%Q ->
     keypoint_to_point eps T x_min y_min keypoint
     = Raise rio.TransformNotInvertibleError)
    /\ (~ (rio.determinant T == 0)%Q ->
        exists g, keypoint_to_point eps T x_min y_min keypoint = Ok g).
Proof.
  intros eps T x_min y_min keypoint. split.
  - intros Hd. unfold keypoint_to_point, rio.rowcol, rio.invert.
    apply Qeq_bool_iff in Hd. rewrite Hd. reflexivity.
  - intros Hd. destruct (invert_ok T Hd) as [inv [Hinv _]].
    eexists. apply (keypoint_to_point_Ok _ _ _ _ _ _ Hinv).
Qed.

(** X9, witness: a transform that flattens the plane onto a line. *)
Lemma keypoint_to_point_fails_iff_degenerate_witness :
  let flat := rio.mkAffine 1 2 0 2 4 0 in
  (rio.determinant flat == 0)%Q
  /\ keypoint_to_point 0 flat 100 200 (mkKeyPoint (3, 5)%Q 1%Q)
     = Raise rio.TransformNotInvertibleError.
Proof.
  intros flat. assert (Hd : (rio.determinant flat == 0)%Q) by reflexivity.
  split; [exact Hd|].
  apply (keypoint_to_point_fails_iff_degenerate 0 flat 100 200 (mkKeyPoint (3, 5)%Q 1%Q)).
  exact Hd.
Defined.

Lemma Qfloor_half (k : Z) (q : Q) : (q == inject_Z k + (1 # 2))%Q -> Qfloor q = k.
Proof.
  intros E. pose proof (Qfloor_le q) as Hlo. pose proof (Qlt_floor q) as Hhi.
  rewrite inject_Z_plus in Hhi. change (inject_Z 1) with 1%Q in Hhi.
  destruct (Z.lt_trichotomy (Qfloor q) k) as [H | [H | H]]; [exfalso | assumption | exfalso].
  - assert (Hz : (inject_Z (Qfloor q + 1) <= inject_Z k)%Q) by (rewrite <- Zle_Qle; lia).
    rewrite inject_Z_plus in Hz. change (inject_Z 1) with 1%Q in Hz. lra.
  - assert (Hz : (inject_Z (k + 1) <= inject_Z (Qfloor q))%Q) by (rewrite <- Zle_Qle; lia).
    rewrite inject_Z_plus in Hz. change (inject_Z 1) with 1%Q in Hz. lra.
Qed.

(** X10. With no shift ([eps = 0]) the round trip is exact on pixel
    centres: if the tile corner [P] is the centre of the raster pixel in
    column [k] and row [l], the key point [(0, 0)] comes back as [P]. *)
Theorem roundtrip_exact_on_pixel_centres :
  forall (T : rio.Affine) (k l : Z) (size0 : Q),
    ~ (rio.determinant T == 0)%Q ->
    let P := rio.apply T (inject_Z k + (1 # 2))%Q (inject_Z l + (1 # 2))%Q in
    exists g : Q * Q,
      keypoint_to_point 0 T (fst P) (snd P) (mkKeyPoint (0, 0)%Q size0) = Ok g
      /\ (fst g == fst P)%Q /\ (snd g == snd P)%Q.
Proof.
  intros T k l size0 Hd P.
  assert (Hinv : exists inv, rio.invert T = Ok inv
                  /\ (fst (rio.apply inv (fst P + 0) (snd P - 0)) == inject_Z k + (1 # 2))%Q
                  /\ (snd (rio.apply inv (fst P + 0) (snd P - 0)) == inject_Z l + (1 # 2))%Q).
  { unfold rio.invert. destruct (Qeq_bool (rio.determinant T) 0) eqn:E.
    - apply Qeq_bool_iff in E. contradiction.
    - eexists. split; [reflexivity|]. unfold P, rio.determinant in *.
      destruct T as [a b c d e f].
      cbn [rio.apply rio.a rio.b rio.c rio.d rio.e rio.f fst snd] in *.
      split; field; exact Hd. }
  destruct Hinv as [inv [Hinv [Hc Hr]]].
  eexists. split; [apply (keypoint_to_point_Ok _ _ _ _ _ _ Hinv)|].
  rewrite (Qfloor_half k _ Hc), (Qfloor_half l _ Hr).
  unfold P, rio.xy, rio.apply. cbn [fst snd pt]. split; ring.
Qed.

(** X10, witness: the centre of the corner pixel of the north-up raster. *)
Lemma roundtrip_exact_on_pixel_centres_witness :
  ~ (rio.determinant north_up == 0)%Q
  /\ exists g : Q * Q,
      keypoint_to_point 0 north_up
        (fst (rio.apply north_up (inject_Z 0 + (1 # 2))%Q (inject_Z 0 + (1 # 2))%Q))
        (snd (rio.apply north_up (inject_Z 0 + (1 # 2))%Q (inject_Z 0 + (1 # 2))%Q))
        (mkKeyPoint (0, 0)%Q 1%Q) = Ok g
      /\ (fst g == fst (rio.apply north_up (inject_Z 0 + (1 # 2))%Q
                                           (inject_Z 0 + (1 # 2))%Q))%Q
      /\ (snd g == snd (rio.apply north_up (inject_Z 0 + (1 # 2))%Q
                                           (inject_Z 0 + (1 # 2))%Q))%Q.
Proof.
  assert (Hd : ~ (rio.determinant north_up == 0)%Q) by (vm_compute; discriminate).
  split; [exact Hd|].
  exact (roundtrip_exact_on_pixel_centres north_up 0 0 1 Hd).
Defined.

(** ** The script *)

Lemma nth_map_seq (g : nat -> Z) (n i : nat) :
  (i < n)%nat -> nth i (map g (seq 0 n)) 0 = g i.
Proof.
  intros Hi. rewrite (nth_indep _ 0 (g 0%nat)) by (now rewrite length_map, length_seq).
  rewrite (map_nth g), seq_nth by assumption. reflexivity.
Qed.

(** X11. A patch of [c > 2] channels, [h] rows and [w] columns, channels
    first, is turned into a tile of shape [(h, w, c)] whose element
    [(y, x, k)] is the patch's element [(k, y, x)]; the mask the script
    builds for it has shape [(h, w)] and is 1 everywhere, so the assertions
    of [count] always hold for it. *)
Theorem script_tile_and_mask :
  forall (patch_rgb : ndarray) (c h w : nat) (self : TreeCounter),
    shape patch_rgb = [c; h; w] -> (2 < c)%nat ->
    exists rgb mask,
      Script.moveaxis_0_last patch_rgb = Ok rgb
      /\ shape rgb = [h; w; c]
      /\ (forall y x k, (y < h)%nat -> (x < w)%nat -> (k < c)%nat ->
            nth ((y * w + x) * c + k) (data rgb) 0
            = nth (k * (h * w) + (y * w + x)) (data patch_rgb) 0)
      /\ Script.ones_like_channel_2 rgb = Ok mask
      /\ shape mask = [h; w]
      /\ data mask = repeat 1 (h * w)
      /\ count_asserts rgb mask self = (Ok tt, self).
Proof.
  intros patch_rgb c h w self Hs Hc.
  unfold Script.moveaxis_0_last. rewrite Hs. rewrite size_of_2.
  eexists. eexists. split; [reflexivity|]. cbn [shape data app].
  split; [reflexivity|]. split; [|split; [|split; [|split]]].
  - intros y x k Hy Hx Hk.
    assert (Hyx : (y * w + x + 1 <= h * w)%nat) by nia.
    apply (Nat.mul_le_mono_r _ _ c) in Hyx.
    rewrite nth_map_seq by lia.
    replace ((y * w + x) * c + k)%nat with (k + (y * w + x) * c)%nat by lia.
    rewrite Nat.Div0.mod_add, Nat.mod_small by assumption.
    rewrite Nat.div_add, Nat.div_small by lia. reflexivity.
  - unfold Script.ones_like_channel_2. cbn [shape].
    destruct (Nat.ltb_spec 2 c); [reflexivity | lia].
  - reflexivity.
  - unfold np.ones. cbn [data]. now rewrite size_of_2.
  - apply (count_asserts_pass _ _ h w c); reflexivity.
Qed.

(** X11, witness: a patch of three channels, one row and two columns. *)
Lemma script_tile_and_mask_witness :
  let patch_rgb := mkArr [3; 1; 2]%nat [1; 2; 3; 4; 5; 6] in
  (shape patch_rgb = [3; 1; 2]%nat /\ (2 < 3)%nat)
  /\ Script.moveaxis_0_last patch_rgb = Ok (mkArr [1; 2; 3]%nat [1; 3; 5; 2; 4; 6])
  /\ exists rgb mask,
      Script.moveaxis_0_last patch_rgb = Ok rgb
      /\ shape rgb = [1; 2; 3]%nat
      /\ (forall y x k, (y < 1)%nat -> (x < 2)%nat -> (k < 3)%nat ->
            nth ((y * 2 + x) * 3 + k) (data rgb) 0
            = nth (k * (1 * 2) + (y * 2 + x)) (data patch_rgb) 0)
      /\ Script.ones_like_channel_2 rgb = Ok mask
      /\ shape mask = [1; 2]%nat
      /\ data mask = repeat 1 (1 * 2)
      /\ count_asserts rgb mask (__init__ false) = (Ok tt, __init__ false).
Proof.
  intros patch_rgb. split; [split; [reflexivity | lia]|]. split; [reflexivity|].
  apply (script_tile_and_mask patch_rgb 3 1 2 (__init__ false)); [reflexivity | lia].
Defined.

Section ScriptFacts.
Context {CA : ContourAnalysis}.
Variable cv2_version : string.
Variable eps : Q.
Variable transform : rio.Affine.

Lemma write_keypoints_Ok (i : nat) (x_min y_min : Q) (keypoints : list KeyPoint) :
  forall (nr : nat) (out out' : Script.Shapefiles),
    Script.write_keypoints eps transform i x_min y_min nr keypoints out = (Ok tt, out') ->
    Script.rectangles_shapefile out' = Script.rectangles_shapefile out
    /\ exists points : list (Q * Q),
        length points = length keypoints
        /\ Script.trees_shapefile out'
           = Script.trees_shapefile out
             ++ combine points
                  (map (fun n => Z.of_nat i * 1000 + Z.of_nat n) (seq nr (length keypoints))).
Proof.
  induction keypoints as [|kp kps IH]; intros nr out out' H; cbn [Script.write_keypoints] in H.
  - injection H as <-. split; [reflexivity|]. exists []. cbn. now rewrite app_nil_r.
  - destruct (keypoint_to_point eps transform x_min y_min kp) as [point | e |];
      try discriminate.
    apply IH in H. destruct H as [Hr [points [Hl Ht]]].
    split; [exact Hr|]. exists (point :: points). cbn [length]. split; [now rewrite Hl|].
    rewrite Ht. cbn [Script.write_tree Script.trees_shapefile seq map combine].
    now rewrite <- app_assoc.
Qed.

Lemma process_patch_Ok (i : nat) (patch : Script.Patch) (out out' : Script.Shapefiles) :
  Script.process_patch cv2_version eps transform i patch out = (Ok tt, out') ->
  exists (rgb mask : ndarray) (r : Result.t) (points : list (Q * Q)),
    Script.moveaxis_0_last (Script.rgb patch) = Ok rgb
    /\ Script.ones_like_channel_2 rgb = Ok mask
    /\ fst (count cv2_version rgb mask (__init__ false)) = Ok r
    /\ Result.count r = Z.of_nat (length points)
    /\ Script.trees_shapefile out'
       = Script.trees_shapefile out ++ combine points (tile_ids i (length points))
    /\ Script.rectangles_shapefile out'
       = Script.rectangles_shapefile out
         ++ [(Script.rectangle_ring
                (fst (Script.left_upper_corner_coordinates patch))
                (snd (Script.left_upper_corner_coordinates patch))
                (fst (Script.right_lower_corner_coordinates patch))
                (snd (Script.right_lower_corner_coordinates patch)),
              Z.of_nat i * 1000)]
    /\ length points = Script.keypoints_of_patch cv2_version patch.
Proof.
  unfold Script.process_patch, Script.keypoints_of_patch.
  destruct (Script.moveaxis_0_last (Script.rgb patch)) as [rgb | e |] eqn:Ea;
    try discriminate.
  destruct (Script.ones_like_channel_2 rgb) as [mask | e |] eqn:Em; try discriminate.
  destruct (fst (count cv2_version rgb mask (__init__ false))) as [r | e |] eqn:Ec;
    try discriminate.
  pose proof (count_Ok_inv cv2_version rgb mask (__init__ false) r Ec) as Hcount.
  destruct (Result.keypoints r) as [kps|].
  - intros H. apply write_keypoints_Ok in H.
    destruct H as [Hr [points [Hl Ht]]].
    exists rgb, mask, r, points. rewrite Hl, Hcount.
    repeat split; try reflexivity; assumption.
  - intros H. injection H as <-. exists rgb, mask, r, [].
    rewrite Hcount. cbn [length combine Script.write_rectangle Script.trees_shapefile
                          Script.rectangles_shapefile].
    rewrite app_nil_r. repeat split; try reflexivity; assumption.
Qed.


Lemma map_snd_combine_ids (points : list (Q * Q)) (ids : list Z) :
  length points = length ids -> map snd (combine points ids) = ids.
Proof.
  revert ids. induction points as [|p ps IH]; intros [|x xs] H; cbn in *; try discriminate.
  - reflexivity.
  - f_equal. apply IH. lia.
Qed.

Lemma patches_loop_Ok (patches : list Script.Patch) :
  forall (i : nat) (out out' : Script.Shapefiles),
    Script.patches_loop cv2_version eps transform i patches out = (Ok tt, out') ->
    map snd (Script.rectangles_shapefile out')
    = map snd (Script.rectangles_shapefile out)
      ++ map (fun k => Z.of_nat k * 1000) (seq i (length patches))
    /\ map snd (Script.trees_shapefile out')
       = map snd (Script.trees_shapefile out)
         ++ all_ids i (map (Script.keypoints_of_patch cv2_version) patches).
Proof.
  induction patches as [|patch rest IH]; intros i out out' H; cbn [Script.patches_loop] in H.
  - injection H as <-. split; cbn; now rewrite app_nil_r.
  - destruct (Script.process_patch cv2_version eps transform i patch out)
      as [[[] | e |] out1] eqn:Ep; try discriminate.
    apply process_patch_Ok in Ep.
    destruct Ep as [rgb [mask [r [points [_ [_ [_ [_ [Ht [Hr Hk]]]]]]]]]].
    apply IH in H. destruct H as [Hrect Hids].
    split.
    + rewrite Hrect, Hr, map_app. cbn [map snd length seq]. now rewrite <- app_assoc.
    + rewrite Hids, Ht, map_app. cbn [all_ids map].
      rewrite map_snd_combine_ids by (unfold tile_ids; now rewrite length_map, length_seq).
      rewrite Hk. now rewrite <- !app_assoc.
Qed.

(** X13. The script never ends normally.  When every patch is processed,
    the loop has written one rectangle per patch, with the ids 0, 1000,
    2000, ... in order, and the closing statement [c.close()] then raises
    [NameError], no [c] being bound anywhere; when a patch fails, its
    exception ends the script. *)
Theorem main_never_returns :
  forall (patches : list Script.Patch),
    fst (Script.main cv2_version eps transform patches) <> Ok tt
    /\ (forall out,
          Script.patches_loop cv2_version eps transform 0 patches (Script.mkShapefiles [] [])
          = (Ok tt, out) ->
          Script.main cv2_version eps transform patches
          = (Raise (Script.NameError "name 'c' is not defined"), out)
          /\ map snd (Script.rectangles_shapefile out)
             = map (fun k => Z.of_nat k * 1000) (seq 0 (length patches)))
    /\ (forall e out,
          Script.patches_loop cv2_version eps transform 0 patches (Script.mkShapefiles [] [])
          = (Raise e, out) ->
          Script.main cv2_version eps transform patches = (Raise e, out)).
Proof.
  intros patches. unfold Script.main. split; [|split].
  - destruct (Script.patches_loop _ _ _ _ _ _) as [[[] | e |] out]; cbn [fst]; discriminate.
  - intros out H. rewrite H. split; [reflexivity|].
    apply patches_loop_Ok in H. destruct H as [H _]. exact H.
  - intros e out H. now rewrite H.
Qed.

End ScriptFacts.



(** X13, witness: the script on two white patches. *)
Lemma main_never_returns_witness :
  let patch := Script.mkPatch (mkArr [3; 3; 3]%nat (repeat 255 27))
                 (100, 200)%Q (102, 198)%Q in
  exists out,
    Script.patches_loop (CA := PixelContours.analysis) "4.1.0" 0 north_up 0
      [patch; patch] (Script.mkShapefiles [] [])
    = (Ok tt, out)
    /\ Script.main (CA := PixelContours.analysis) "4.1.0" 0 north_up [patch; patch]
       = (Raise (Script.NameError "name 'c' is not defined"), out)
    /\ map snd (Script.rectangles_shapefile out) = [0; 1000].
Proof.
  intros patch.
  assert (E : exists out,
             Script.patches_loop (CA := PixelContours.analysis) "4.1.0" 0 north_up 0
               [patch; patch] (Script.mkShapefiles [] [])
             = (Ok tt, out)) by (eexists; vm_compute; reflexivity).
  destruct E as [out E]. exists out. split; [exact E|].
  destruct (main_never_returns (CA := PixelContours.analysis) "4.1.0" 0 north_up
              [patch; patch]) as [_ [H _]].
  exact (H out E).
Defined.

(** ** The ids of the points *)

Lemma In_tile_ids (i n : nat) (x : Z) :
  In x (tile_ids i n)
  <-> exists nr, (nr < n)%nat /\ x = Z.of_nat i * 1000 + Z.of_nat nr.
Proof.
  unfold tile_ids. rewrite in_map_iff. split.
  - intros [nr [<- H]]. apply in_seq in H. exists nr. split; [lia | reflexivity].
  - intros [nr [H ->]]. exists nr. split; [reflexivity|]. apply in_seq. lia.
Qed.

Lemma NoDup_tile_ids (i n : nat) : NoDup (tile_ids i n).
Proof.
  unfold tile_ids. apply NoDup_map_NoDup_ForallPairs; [|apply seq_NoDup].
  intros a b _ _ H. lia.
Qed.

Lemma all_ids_lower (counts : list nat) :
  forall (i : nat) (x : Z), In x (all_ids i counts) -> Z.of_nat i * 1000 <= x.
Proof.
  induction counts as [|n rest IH]; intros i x H; cbn [all_ids] in H; [contradiction|].
  apply in_app_or in H. destruct H as [H | H].
  - apply In_tile_ids in H. destruct H as [nr [_ ->]]. lia.
  - apply IH in H. lia.
Qed.

Lemma NoDup_all_ids (counts : list nat) :
  forall i : nat, Forall (fun n => (n <= 1000)%nat) counts -> NoDup (all_ids i counts).
Proof.
  induction counts as [|n rest IH]; intros i H; cbn [all_ids]; [constructor|].
  inversion H as [|? ? Hn Hrest]; subst.
  apply NoDup_app; [apply NoDup_tile_ids | now apply IH |].
  intros x Hx Hx'. apply In_tile_ids in Hx. destruct Hx as [nr [Hnr ->]].
  apply all_ids_lower in Hx'. lia.
Qed.

Lemma NoDup_app_shared (l1 l2 : list Z) (x : Z) :
  In x l1 -> In x l2 -> ~ NoDup (l1 ++ l2).
Proof.
  intros H1 H2 Hnd. induction l1 as [|y l1 IH]; [contradiction|].
  cbn in Hnd. inversion Hnd as [|? ? Hy Hrest]; subst.
  destruct H1 as [-> | H1].
  - apply Hy, in_or_app. now right.
  - now apply IH.
Qed.

Lemma all_ids_collide (counts : list nat) :
  forall (i k n m : nat),
    nth_error counts k = Some n -> nth_error counts (S k) = Some m ->
    (1000 < n)%nat -> (0 < m)%nat ->
    ~ NoDup (all_ids i counts).
Proof.
  induction counts as [|c0 rest IH]; intros i k n m Hn Hm Hbig Hpos Hnd.
  - destruct k; discriminate.
  - cbn [all_ids] in Hnd. destruct k as [|k].
    + cbn in Hn. injection Hn as ->.
      destruct rest as [|c1 rest']; [discriminate|]. cbn in Hm. injection Hm as ->.
      cbn [all_ids] in Hnd. revert Hnd.
      apply (NoDup_app_shared _ _ (Z.of_nat (S i) * 1000)).
      * apply In_tile_ids. exists 1000%nat. split; [assumption | lia].
      * apply in_or_app. left. apply In_tile_ids. exists 0%nat. split; [assumption | lia].
    + apply NoDup_app_remove_l in Hnd. revert Hnd.
      apply (IH (S i) k n m); assumption.
Qed.

Section ScriptIds.
Context {CA : ContourAnalysis}.
Variable cv2_version : string.
Variable eps : Q.
Variable transform : rio.Affine.

(** X14. The ids of the points are [1000 * i + nr] for key point [nr] of
    tile [i].  After a run in which every patch is processed, the ids
    written are those of the key points [count] finds on each patch, tile
    after tile; they are pairwise distinct when no patch has more than 1000
    key points, and they are not when some patch has more than 1000 and the
    patch after it has any: the first id of that patch is then written
    twice. *)
Theorem tree_ids_distinct_up_to_1000 :
  forall (patches : list Script.Patch) (out : Script.Shapefiles),
    Script.patches_loop cv2_version eps transform 0 patches (Script.mkShapefiles [] [])
    = (Ok tt, out) ->
    map snd (Script.trees_shapefile out)
    = all_ids 0 (map (Script.keypoints_of_patch cv2_version) patches)
    /\ (Forall (fun patch => (Script.keypoints_of_patch cv2_version patch <= 1000)%nat)
               patches ->
        NoDup (map snd (Script.trees_shapefile out)))
    /\ (forall (k : nat) (patch next : Script.Patch),
          nth_error patches k = Some patch -> nth_error patches (S k) = Some next ->
          (1000 < Script.keypoints_of_patch cv2_version patch)%nat ->
          (0 < Script.keypoints_of_patch cv2_version next)%nat ->
          ~ NoDup (map snd (Script.trees_shapefile out))).
Proof.
  intros patches out H. apply patches_loop_Ok in H. destruct H as [_ Hids].
  cbn [Script.trees_shapefile map app] in Hids.
  split; [exact Hids|]. split.
  - intros Hc. rewrite Hids. apply NoDup_all_ids.
    apply Forall_map. exact Hc.
  - intros k patch next Hp Hq Hbig Hpos. rewrite Hids.
    apply (all_ids_collide _ 0 k (Script.keypoints_of_patch cv2_version patch)
             (Script.keypoints_of_patch cv2_version next)); try assumption.
    + now rewrite nth_error_map, Hp.
    + now rewrite nth_error_map, Hq.
Qed.

End ScriptIds.

(** X14, witness: two white patches, one key point each. *)
Lemma tree_ids_distinct_up_to_1000_witness :
  let patch := Script.mkPatch (mkArr [3; 3; 3]%nat (repeat 255 27))
                 (100, 200)%Q (102, 198)%Q in
  exists out,
    Script.patches_loop (CA := PixelContours.analysis) "4.1.0" 0 north_up 0
      [patch; patch] (Script.mkShapefiles [] [])
    = (Ok tt, out)
    /\ Script.keypoints_of_patch (CA := PixelContours.analysis) "4.1.0" patch = 1%nat
    /\ map snd (Script.trees_shapefile out) = [0; 1000]
    /\ NoDup (map snd (Script.trees_shapefile out)).
Proof.
  intros patch.
  assert (E : exists out,
             Script.patches_loop (CA := PixelContours.analysis) "4.1.0" 0 north_up 0
               [patch; patch] (Script.mkShapefiles [] [])
             = (Ok tt, out)
             /\ map snd (Script.trees_shapefile out) = [0; 1000])
    by (eexists; split; vm_compute; reflexivity).
  assert (Ek : Script.keypoints_of_patch (CA := PixelContours.analysis) "4.1.0" patch
               = 1%nat) by (vm_compute; reflexivity).
  destruct E as [out [E Eids]]. exists out.
  split; [exact E|]. split; [exact Ek|]. split; [exact Eids|].
  destruct (tree_ids_distinct_up_to_1000 (CA := PixelContours.analysis) "4.1.0" 0 north_up
              [patch; patch] out E) as [_ [H _]].
  apply H. repeat constructor; rewrite Ek; lia.
Defined.

Section ScriptEdges.
Context {CA : ContourAnalysis}.
Variable cv2_version : string.
Variable eps : Q.
Variable transform : rio.Affine.

(** X15. A patch with fewer than three channels never reaches [count]:
    building the mask from channel 2 raises [IndexError], and nothing is
    written for the patch, not even its rectangle. *)
Theorem process_patch_few_channels :
  forall (i : nat) (patch : Script.Patch) (out : Script.Shapefiles) (c h w : nat),
    shape (Script.rgb patch) = [c; h; w] -> (c <= 2)%nat ->
    raises (fst (Script.process_patch cv2_version eps transform i patch out)) "IndexError"
    /\ snd (Script.process_patch cv2_version eps transform i patch out) = out.
Proof.
  intros i patch out c h w Hs Hc. unfold Script.process_patch, Script.moveaxis_0_last.
  rewrite Hs. cbn [app]. unfold Script.ones_like_channel_2. cbn [shape].
  destruct (Nat.ltb_spec 2 c); [lia|]. cbn [fst snd].
  split; [eexists|]; reflexivity.
Qed.

End ScriptEdges.

(** X15, witness: a patch of a single channel. *)
Lemma process_patch_few_channels_witness :
  let patch := Script.mkPatch (mkArr [1; 2; 2]%nat [7; 7; 7; 7]) (100, 200)%Q (101, 199)%Q in
  let start := Script.mkShapefiles [] [] in
  (shape (Script.rgb patch) = [1; 2; 2]%nat /\ (1 <= 2)%nat)
  /\ raises (fst (Script.process_patch (CA := PixelContours.analysis) "4.1.0" 0 north_up
                    0 patch start)) "IndexError"
  /\ snd (Script.process_patch (CA := PixelContours.analysis) "4.1.0" 0 north_up
            0 patch start) = start.
Proof.
  intros patch start. split; [split; [reflexivity | lia]|].
  apply (process_patch_few_channels (CA := PixelContours.analysis) "4.1.0" 0 north_up
           0 patch start 1 2 2); [reflexivity | lia].
Defined.
